(** * mgo cluster.go: topology state, synchronisation pass and socket routing

    A shallow embedding of [src/cluster.go].  The cluster is a record of
    seed lists and three server sets; server handles are Go pointers, so
    the handles live in a heap that the three sets alias.  Every method
    that takes [cluster.Lock()] for its whole body is one atomic state
    transformer.  Calls to [log] and to the connection collaborators are
    recorded, in order, in a trace. *)

From Stdlib Require Import ZArith List String Bool Lia Arith.
Import ListNotations.

(** ** Go machine integers *)

Module GoInt.

(** Two's complement wrap-around of [z] into [w] bits. *)
Definition wrap (w z : Z) : Z :=
  ((z + 2 ^ (w - 1)) mod 2 ^ w - 2 ^ (w - 1))%Z.

(** [int] of the gc compilers this code was written for. *)
Definition intSize : Z := 32%Z.

Definition int_wrap (z : Z) : Z := wrap intSize z.
Definition int64_wrap (z : Z) : Z := wrap 64 z.

Definition in_int (z : Z) : Prop := (- 2 ^ 31 <= z < 2 ^ 31)%Z.
Definition in_int64 (z : Z) : Prop := (- 2 ^ 63 <= z < 2 ^ 63)%Z.

End GoInt.

(** ** Server handles *)

(** A [*mongoServer]. *)
Definition ptr := nat.

(** Modelled from the spec: type mongoServer is declared outside
    cluster.go.  The spec's server handle is
    {address, resolvedAddress, isMaster, connectionPool}; the pool is an
    opaque collaborator and shows up only through trace events. *)
Record mongoServer := {
  Addr : string;
  ResolvedAddr : string;
  Master : bool
}.

Definition heap := ptr -> mongoServer.

Definition store (h : heap) (p : ptr) (s : mongoServer) : heap :=
  fun q => if Nat.eqb q p then s else h q.

(** Modelled from the spec: mongoServer.SetMaster writes the role flag of
    one handle. *)
Definition SetMaster (h : heap) (server : ptr) (isMaster : bool) : heap :=
  store h server {| Addr := Addr (h server);
                    ResolvedAddr := ResolvedAddr (h server);
                    Master := isMaster |}.

(** Modelled from the spec: mongoServer.Merge.  The spec has the role flag
    of a registered handle written only as part of a merge, and mergeServer
    writes it nowhere else, so [previous.Merge(server)] takes over the role
    of [server]; the connections it also takes over live in the pool. *)
Definition Merge (h : heap) (previous server : ptr) : heap :=
  SetMaster h previous (Master (h server)).

(** ** Server sets *)

Definition mongoServers := list ptr.

(** Modelled from the spec: type mongoServers and its methods are declared
    outside cluster.go.  The spec's ServerSet is an ordered collection of
    server handles, keyed by address, with add, remove, search, indexed
    get, length and snapshot.  [Remove] reports whether it removed
    something, as its use under [||] in removeServer requires. *)
Module Servers.

Definition same_addr (h : heap) (p q : ptr) : bool :=
  String.eqb (Addr (h p)) (Addr (h q)).

Definition Search (h : heap) (servers : mongoServers) (server : ptr)
  : option ptr :=
  find (fun q => same_addr h q server) servers.

Definition Add (servers : mongoServers) (server : ptr) : mongoServers :=
  servers ++ [server].

Definition Remove (h : heap) (servers : mongoServers) (server : ptr)
  : mongoServers * bool :=
  (filter (fun q => negb (same_addr h q server)) servers,
   existsb (fun q => same_addr h q server) servers).

(** [None] is Go's index-out-of-range panic. *)
Definition Get (servers : mongoServers) (i : nat) : option ptr :=
  nth_error servers i.

Definition Len (servers : mongoServers) : Z :=
  Z.of_nat (List.length servers).

Definition Empty (servers : mongoServers) : bool :=
  match servers with
  | [] => true
  | _ :: _ => false
  end.

Definition Slice (servers : mongoServers) : list ptr := servers.

End Servers.

(** ** The cluster and the world around it *)

Record mongoCluster := {
  userSeeds : list string;
  dynaSeeds : list string;
  servers : mongoServers;
  masters : mongoServers;
  slaves : mongoServers;
  syncing : bool;
  references : Z
}.

Inductive logarg :=
| LS (s : string)
| LN (n : Z).

(** What the cluster does to its collaborators.  [debug] and [debugf]
    output is not recorded. *)
Inductive event :=
| EvLog (args : list logarg)      (* log(...) *)
| EvClose (server : ptr)          (* server.Close() *)
| EvBroadcast                     (* cluster.serverSynced.Broadcast() *)
| EvGoSync                        (* go cluster.syncServers() *)
| EvSleep (ns : Z).               (* time.Sleep(ns) *)

Record world := {
  mem : heap;
  cluster : mongoCluster;
  trace : list event;
  next : ptr                      (* next handle newServer hands out *)
}.

Definition with_cluster (w : world) (c : mongoCluster) : world :=
  {| mem := mem w; cluster := c; trace := trace w; next := next w |}.

Definition with_mem (w : world) (h : heap) : world :=
  {| mem := h; cluster := cluster w; trace := trace w; next := next w |}.

Definition emit (w : world) (e : event) : world :=
  {| mem := mem w; cluster := cluster w; trace := trace w ++ [e];
     next := next w |}.

Definition log (w : world) (args : list logarg) : world :=
  emit w (EvLog args).

Definition set_servers (c : mongoCluster) (s : mongoServers) : mongoCluster :=
  {| userSeeds := userSeeds c; dynaSeeds := dynaSeeds c; servers := s;
     masters := masters c; slaves := slaves c; syncing := syncing c;
     references := references c |}.

Definition set_masters (c : mongoCluster) (s : mongoServers) : mongoCluster :=
  {| userSeeds := userSeeds c; dynaSeeds := dynaSeeds c; servers := servers c;
     masters := s; slaves := slaves c; syncing := syncing c;
     references := references c |}.

Definition set_slaves (c : mongoCluster) (s : mongoServers) : mongoCluster :=
  {| userSeeds := userSeeds c; dynaSeeds := dynaSeeds c; servers := servers c;
     masters := masters c; slaves := s; syncing := syncing c;
     references := references c |}.

Definition set_dynaSeeds (c : mongoCluster) (l : list string) : mongoCluster :=
  {| userSeeds := userSeeds c; dynaSeeds := l; servers := servers c;
     masters := masters c; slaves := slaves c; syncing := syncing c;
     references := references c |}.

Definition set_syncing (c : mongoCluster) (b : bool) : mongoCluster :=
  {| userSeeds := userSeeds c; dynaSeeds := dynaSeeds c; servers := servers c;
     masters := masters c; slaves := slaves c; syncing := b;
     references := references c |}.

Definition set_references (c : mongoCluster) (n : Z) : mongoCluster :=
  {| userSeeds := userSeeds c; dynaSeeds := dynaSeeds c; servers := servers c;
     masters := masters c; slaves := slaves c; syncing := syncing c;
     references := n |}.

Definition blank : mongoServer :=
  {| Addr := EmptyString; ResolvedAddr := EmptyString; Master := false |}.

(** [newCluster]: one reference, and the first pass is started. *)
Definition newCluster (seeds : list string) : world :=
  {| mem := fun _ => blank;
     cluster := {| userSeeds := seeds; dynaSeeds := []; servers := [];
                   masters := []; slaves := []; syncing := false;
                   references := 1 |};
     trace := [EvGoSync];
     next := 0 |}.

(** Modelled from the spec: newServer is declared outside cluster.go.  A
    successful [newServer(addr)] hands out a fresh handle for the address
    and its resolved form, with the role not yet known to be master. *)
Definition newServer (w : world) (addr resolved : string) : world * ptr :=
  ({| mem := store (mem w) (next w)
                   {| Addr := addr; ResolvedAddr := resolved;
                      Master := false |};
      cluster := cluster w; trace := trace w; next := S (next w) |},
   next w).

(** ** Reference counting *)

Definition Acquire (w : world) : world :=
  with_cluster w
    (set_references (cluster w)
       (GoInt.int_wrap (references (cluster w) + 1))).

Definition close_all (w : world) (l : list ptr) : world :=
  fold_left (fun w' server => emit w' (EvClose server)) l w.

(** [None] is the panic of line 79. *)
Definition Release (w : world) : option world :=
  if (references (cluster w) =? 0)%Z then None
  else
    let n := GoInt.int_wrap (references (cluster w) - 1) in
    let w1 := with_cluster w (set_references (cluster w) n) in
    if (n =? 0)%Z
    then Some (close_all w1 (Servers.Slice (servers (cluster w1))))
    else Some w1.

(** ** removeServer and mergeServer *)

Definition removing_msg (w : world) (server : ptr) : list logarg :=
  [LS "Removing server "; LS (Addr (mem w server)); LS " from cluster."].

(** Go's [||] evaluates its right operand only when the left one is
    false, so a successful [Remove] on one set skips the sets after it. *)
Definition removeServer (w : world) (server : ptr) : world :=
  let c := cluster w in
  let '(servers1, removed1) := Servers.Remove (mem w) (servers c) server in
  if removed1
  then log (with_cluster w (set_servers c servers1)) (removing_msg w server)
  else
    let '(masters1, removed2) := Servers.Remove (mem w) (masters c) server in
    if removed2
    then log (with_cluster w (set_masters (set_servers c servers1) masters1))
             (removing_msg w server)
    else
      let '(slaves1, removed3) := Servers.Remove (mem w) (slaves c) server in
      let c3 := set_slaves (set_masters (set_servers c servers1) masters1)
                           slaves1 in
      if removed3
      then log (with_cluster w c3) (removing_msg w server)
      else with_cluster w c3.

Definition mergeServer (w : world) (server : ptr) : world :=
  let c := cluster w in
  let h := mem w in
  let w1 :=
    match Servers.Search h (servers c) server with
    | None =>
        let c1 := set_servers c (Servers.Add (servers c) server) in
        if Master (h server)
        then with_cluster
               (log w [LS "[sync] Adding "; LS (Addr (h server));
                       LS " to cluster as a master."])
               (set_masters c1 (Servers.Add (masters c1) server))
        else with_cluster
               (log w [LS "[sync] Adding "; LS (Addr (h server));
                       LS " to cluster as a slave."])
               (set_slaves c1 (Servers.Add (slaves c1) server))
    | Some previous =>
        let w2 :=
          if negb (Bool.eqb (Master (h server)) (Master (h previous)))
          then
            if Master (h previous)
            then
              let c1 := set_masters c
                          (fst (Servers.Remove h (masters c) previous)) in
              with_cluster
                (log w [LS "[sync] Server "; LS (Addr (h server));
                        LS " is now a slave."])
                (set_slaves c1 (Servers.Add (slaves c1) previous))
            else
              let c1 := set_slaves c
                          (fst (Servers.Remove h (slaves c) previous)) in
              with_cluster
                (log w [LS "[sync] Server "; LS (Addr (h server));
                        LS " is now a master."])
                (set_masters c1 (Servers.Add (masters c1) previous))
          else w in
        with_mem w2 (Merge (mem w2) previous server)
    end in
  emit w1 EvBroadcast.

(** ** getKnownAddrs *)

(** The closure [add] of getKnownAddrs, with the [seen] map as the list of
    its keys. *)
Definition add (acc : list string * list string) (addr : string)
  : list string * list string :=
  let '(seen, known) := acc in
  if existsb (String.eqb addr) seen then acc
  else (addr :: seen, known ++ [addr]).

Definition getKnownAddrs (w : world) : list string :=
  let c := cluster w in
  let acc := fold_left add (userSeeds c) ([], []) in
  let acc := fold_left add (dynaSeeds c) acc in
  let acc := fold_left add
               (map (fun serv => Addr (mem w serv))
                    (Servers.Slice (servers c))) acc in
  snd acc.

(** ** syncServer *)

Record isMasterResult := {
  IsMaster : bool;
  Secondary : bool;
  Primary : string;
  Hosts : list string;
  Passives : list string
}.

(** What the network answers to one probe: [server.AcquireSocket()] fails,
    the ismaster command fails, or a result is decoded. *)
Inductive probe :=
| SocketFailed (err : string)
| CommandFailed (err : string)
| Answered (result : isMasterResult).

(** [None] is the error return; the deferred function has then removed
    the server. *)
Definition syncServer (w : world) (server : ptr) (pr : probe)
  : world * option (list string) :=
  let addr := Addr (mem w server) in
  let w0 := log w [LS "[sync] Processing "; LS addr; LS "..."] in
  match pr with
  | SocketFailed err =>
      (removeServer
         (log w0 [LS "[sync] Failed to get socket to "; LS addr; LS ": ";
                  LS err]) server, None)
  | CommandFailed err =>
      (removeServer
         (log w0 [LS "[sync] Command 'ismaster' to "; LS addr;
                  LS " failed: "; LS err]) server, None)
  | Answered result =>
      let w1 :=
        if IsMaster result
        then
          let w' := log w0 [LS "[sync] "; LS addr; LS " is a master."] in
          with_mem w' (SetMaster (mem w') server true)
        else if Secondary result
        then log w0 [LS "[sync] "; LS addr; LS " is a slave."]
        else log w0 [LS "[sync] "; LS addr;
                     LS " is neither a master nor a slave."] in
      let hosts :=
        (if String.eqb (Primary result) EmptyString then []
         else [Primary result]) ++ Hosts result ++ Passives result in
      (mergeServer w1 server, Some hosts)
  end.

(** ** syncServers: guard, fan-out, completion *)

(** Lines 241-248: [None] is the early return. *)
Definition syncServers_guard (w : world) : option world :=
  let c := cluster w in
  if syncing c || (references c =? 0)%Z then None
  else Some (with_cluster w
               (set_syncing
                  (set_references c (GoInt.int_wrap (references c + 1)))
                  true)).

(** One goroutine started by [spawnSync]: about to call [newServer], about
    to call [syncServer] on its handle, or ranging over the hosts it got
    back.  [BHosts []] is a body that has returned and whose deferred
    function has not run yet. *)
Inductive branch :=
| BNew (addr : string)
| BSync (server : ptr)
| BHosts (hosts : list string).

(** The locals of one pass.  [todo] is what [for _, addr := range known]
    still has to visit; [passed] says the coordinator got through the
    [done.Lock()] of line 301; [crashed] is the run-time panic of
    unlocking a mutex that is not locked. *)
Record pass := {
  known : list string;
  todo : list string;
  started : Z;
  finished : Z;
  done_locked : bool;
  crashed : bool;
  passed : bool;
  seen : list string;
  branches : list branch
}.

Definition pass_init (addrs : list string) : pass :=
  {| known := addrs; todo := addrs; started := 0; finished := 0;
     done_locked := true; crashed := false; passed := false;
     seen := []; branches := [] |}.

(** [spawnSync(addr)]: count the branch, then start it. *)
Definition spawnSync (p : pass) (addr : string) : pass :=
  {| known := known p; todo := todo p;
     started := GoInt.int_wrap (started p + 1);
     finished := finished p; done_locked := done_locked p;
     crashed := crashed p; passed := passed p; seen := seen p;
     branches := branches p ++ [BNew addr] |}.

(** The test of line 271, on the value [finished] has after line 270. *)
Definition quiesced (p : pass) (fin : Z) : bool :=
  (started p =? fin)%Z && (fin >=? Z.of_nat (List.length (known p)))%Z.

(** The deferred function of lines 268-275; the flag says whether
    [done.Unlock()] was called. *)
Definition deferred (p : pass) : pass * bool :=
  let fin := GoInt.int_wrap (finished p + 1) in
  let raise := quiesced p fin in
  ({| known := known p; todo := todo p; started := started p;
      finished := fin;
      done_locked := if raise then false else done_locked p;
      crashed := if raise then negb (done_locked p) || crashed p
                 else crashed p;
      passed := passed p; seen := seen p; branches := branches p |},
   raise).

Definition set_branches (p : pass) (bs : list branch) : pass :=
  {| known := known p; todo := todo p; started := started p;
     finished := finished p; done_locked := done_locked p;
     crashed := crashed p; passed := passed p; seen := seen p;
     branches := bs |}.

Definition set_seen (p : pass) (l : list string) : pass :=
  {| known := known p; todo := todo p; started := started p;
     finished := finished p; done_locked := done_locked p;
     crashed := crashed p; passed := passed p; seen := l;
     branches := branches p |}.

Fixpoint replace_nth {A} (i : nat) (x : A) (l : list A) : list A :=
  match l, i with
  | [], _ => []
  | _ :: t, O => x :: t
  | y :: t, S j => y :: replace_nth j x t
  end.

Fixpoint remove_nth {A} (i : nat) (l : list A) : list A :=
  match l, i with
  | [], _ => []
  | _ :: t, O => t
  | y :: t, S j => y :: remove_nth j t
  end.

(** The moves of one pass.  Everything the counters see happens under the
    mutex [m], so each move is atomic. *)
Inductive action :=
| MainSpawn                                 (* line 298, once *)
| MainWait                                  (* line 301 gets the lock *)
| NewServerFails (i : nat) (err : string)   (* lines 277-281 *)
| Resolve (i : nat) (resolved : string)     (* lines 277, 283-286 *)
| Sync (i : nat) (pr : probe)               (* line 288 *)
| SpawnHost (i : nat)                       (* line 291, once *)
| Return (i : nat).                         (* lines 268-275 *)

Definition pass_act (a : action) (x : world * pass) : option (world * pass) :=
  let '(w, p) := x in
  if crashed p then None
  else
    match a with
    | MainSpawn =>
        if passed p then None
        else
          match todo p with
          | [] => None
          | addr :: rest =>
              let p1 := spawnSync p addr in
              Some (w, {| known := known p1; todo := rest;
                          started := started p1; finished := finished p1;
                          done_locked := done_locked p1;
                          crashed := crashed p1; passed := passed p1;
                          seen := seen p1; branches := branches p1 |})
          end
    | MainWait =>
        match todo p with
        | [] =>
            if passed p || done_locked p then None
            else Some (w, {| known := known p; todo := [];
                             started := started p; finished := finished p;
                             done_locked := true; crashed := crashed p;
                             passed := true; seen := seen p;
                             branches := branches p |})
        | _ :: _ => None
        end
    | NewServerFails i err =>
        match nth_error (branches p) i with
        | Some (BNew addr) =>
            Some (log w [LS "[sync] Failed to start sync of "; LS addr;
                         LS ": "; LS err],
                  set_branches p (replace_nth i (BHosts []) (branches p)))
        | _ => None
        end
    | Resolve i resolved =>
        match nth_error (branches p) i with
        | Some (BNew addr) =>
            let '(w1, server) := newServer w addr resolved in
            if existsb (String.eqb resolved) (seen p)
            then Some (w1, set_branches p
                             (replace_nth i (BHosts []) (branches p)))
            else Some (w1, set_branches (set_seen p (resolved :: seen p))
                             (replace_nth i (BSync server) (branches p)))
        | _ => None
        end
    | Sync i pr =>
        match nth_error (branches p) i with
        | Some (BSync server) =>
            let '(w1, r) := syncServer w server pr in
            let hosts := match r with Some l => l | None => [] end in
            Some (w1, set_branches p
                        (replace_nth i (BHosts hosts) (branches p)))
        | _ => None
        end
    | SpawnHost i =>
        match nth_error (branches p) i with
        | Some (BHosts (addr :: rest)) =>
            Some (w, spawnSync
                       (set_branches p
                          (replace_nth i (BHosts rest) (branches p)))
                       addr)
        | _ => None
        end
    | Return i =>
        match nth_error (branches p) i with
        | Some (BHosts []) =>
            Some (w, fst (deferred
                            (set_branches p (remove_nth i (branches p)))))
        | _ => None
        end
    end.

Fixpoint pass_run (l : list action) (x : world * pass)
  : option (world * pass) :=
  match l with
  | [] => Some x
  | a :: l' =>
      match pass_act a x with
      | Some y => pass_run l' y
      | None => None
      end
  end.

(** The states a pass can be in once it has started from [x]. *)
Inductive pass_reach (x : world * pass) : world * pass -> Prop :=
| reach_here : pass_reach x x
| reach_step : forall y z a,
    pass_reach x y -> pass_act a y = Some z -> pass_reach x z.

(** Lines 303-325 and 331, under the cluster lock; the flag is the
    [goto restart]. *)
Definition finishPass (w : world) : world * bool :=
  let c := set_syncing (cluster w) false in
  let w1 :=
    log (with_cluster w c)
        [LS "[sync] Synchronization completed: ";
         LN (Servers.Len (masters c)); LS " master(s) and, ";
         LN (Servers.Len (slaves c)); LS " slave(s) alive."] in
  let w2 :=
    if negb (Servers.Empty (servers c))
    then with_cluster w1
           (set_dynaSeeds (cluster w1)
              (map (fun server => Addr (mem w1 server))
                   (Servers.Slice (servers c))))
    else w1 in
  if (Servers.Len (masters c) =? 0)%Z
  then (emit (log w2 [LS "[sync] No masters found. Synchronize again."])
             EvBroadcast, true)
  else (w2, false).

(** The end of a pass: the locked section, then [cluster.Release()] and,
    before a restart, the sleep. *)
Definition syncServers_complete (w : world) : option (world * bool) :=
  let '(w1, restart) := finishPass w in
  match Release w1 with
  | None => None
  | Some w2 =>
      Some (if restart then emit w2 (EvSleep 500000000) else w2, restart)
  end.

(** ** AcquireSocket *)

Definition mongoSocket := nat.

(** The test of line 344. *)
Definition eligible (write : bool) (c : mongoCluster) : bool :=
  negb (Servers.Empty (masters c))
  || (negb write && negb (Servers.Empty (slaves c))).

(** Lines 355-360. *)
Definition pick (write : bool) (c : mongoCluster) : option ptr :=
  if write || Servers.Empty (slaves c)
  then Servers.Get (masters c) 0
  else Servers.Get (slaves c) 0.

(** What AcquireSocket cannot control: the clock, what the other
    goroutines do to the world while this one holds no lock, and whether a
    server hands out a socket.  Each is indexed by a tick that advances at
    every such point. *)
Record env := {
  now : nat -> Z;
  others : nat -> world -> world;
  dial : nat -> ptr -> option mongoSocket
}.

Inductive outcome :=
| Returned (s : mongoSocket) (w : world)
| Failed (err : string) (w : world)
| Panicked
| Running (w : world).

Inductive iter :=
| Done (o : outcome)
| Again (w : world) (n : nat).

(** One turn of the inner loop, together with the rest of the outer loop
    body when the inner loop breaks. *)
Definition acquire_iter (e : env) (write : bool) (syncTimeout began : Z)
  (n : nat) (w : world) : iter :=
  if eligible write (cluster w)
  then
    match pick write (cluster w) with
    | None => Done Panicked
    | Some server =>
        match dial e n server with
        | Some s => Done (Returned s w)
        | None =>
            let w1 := removeServer (others e n w) server in
            Again (others e (S n) (emit w1 EvGoSync)) (S (S n))
        end
    end
  else if (syncTimeout >? 0)%Z
          && (GoInt.int64_wrap (now e n - began) >? syncTimeout)%Z
  then Done (Failed "no reachable servers" w)
  else Again (others e n (log w [LS "Waiting for masters to synchronize."]))
             (S n).

Fixpoint acquire_loop (fuel : nat) (e : env) (write : bool)
  (syncTimeout began : Z) (n : nat) (w : world) : outcome :=
  match fuel with
  | O => Running w
  | S fuel' =>
      match acquire_iter e write syncTimeout began n w with
      | Done o => o
      | Again w' n' => acquire_loop fuel' e write syncTimeout began n' w'
      end
  end.

Definition AcquireSocket (fuel : nat) (e : env) (write : bool)
  (syncTimeout : Z) (w : world) : outcome :=
  acquire_loop fuel e write syncTimeout (now e 0) 1 w.

(** ** Histories of a cluster *)

Inductive op :=
| OpProbe (addr resolved : string) (pr : probe)  (* newServer, syncServer *)
| OpMerge (server : ptr)
| OpRemove (server : ptr)
| OpAcquire
| OpRelease
| OpBeginPass
| OpFinishPass.

Definition apply_op (o : op) (w : world) : option world :=
  match o with
  | OpProbe addr resolved pr =>
      let '(w1, server) := newServer w addr resolved in
      Some (fst (syncServer w1 server pr))
  | OpMerge server => Some (mergeServer w server)
  | OpRemove server => Some (removeServer w server)
  | OpAcquire => Some (Acquire w)
  | OpRelease => Release w
  | OpBeginPass => syncServers_guard w
  | OpFinishPass =>
      match syncServers_complete w with
      | Some (w', _) => Some w'
      | None => None
      end
  end.

Fixpoint run (ops : list op) (w : world) : option world :=
  match ops with
  | [] => Some w
  | o :: ops' =>
      match apply_op o w with
      | Some w' => run ops' w'
      | None => None
      end
  end.

Definition reachable (w : world) : Prop :=
  exists seeds ops, run ops (newCluster seeds) = Some w.

(** ** Properties of cluster states *)

(** Some handle of the set carries the address of [server]. *)
Definition has_addr (h : heap) (l : mongoServers) (server : ptr) : bool :=
  existsb (fun q => Servers.same_addr h q server) l.

Definition known_to (w : world) (server : ptr) : bool :=
  has_addr (mem w) (servers (cluster w)) server
  || has_addr (mem w) (masters (cluster w)) server
  || has_addr (mem w) (slaves (cluster w)) server.

(** Masters and slaves split the server set. *)
Definition partition (c : mongoCluster) : Prop :=
  (forall p, In p (servers c) <-> In p (masters c) \/ In p (slaves c))
  /\ (forall p, ~ (In p (masters c) /\ In p (slaves c))).

(** No address is registered twice. *)
Definition keyed (h : heap) (l : mongoServers) : Prop :=
  forall p q, In p l -> In q l -> Addr (h p) = Addr (h q) -> p = q.

(** The role flag of a registered handle says which side it is on. *)
Definition roles_agree (w : world) : Prop :=
  (forall p, In p (masters (cluster w)) -> Master (mem w p) = true)
  /\ (forall p, In p (slaves (cluster w)) -> Master (mem w p) = false).

Definition cluster_inv (w : world) : Prop :=
  partition (cluster w) /\ keyed (mem w) (servers (cluster w))
  /\ roles_agree w.

(** The tests of lines 173 and 183 together: mergeServer finds a previous
    handle and moves it to the other side. *)
Definition merge_moves (w : world) (server : ptr) : bool :=
  match Servers.Search (mem w) (servers (cluster w)) server with
  | None => false
  | Some previous =>
      negb (Bool.eqb (Master (mem w server)) (Master (mem w previous)))
  end.

Definition master_answer : isMasterResult :=
  {| IsMaster := true; Secondary := false; Primary := EmptyString;
     Hosts := []; Passives := [] |}.

Definition slave_answer : isMasterResult :=
  {| IsMaster := false; Secondary := true; Primary := EmptyString;
     Hosts := []; Passives := [] |}.


(** A cluster that has merged "A" as a master, and a fresh candidate for
    "A" whose probe found no master. *)
Definition demote_example : world :=
  let w1 := fst (syncServer (fst (newServer (newCluster ["A"%string])
                                            "A" "A"))
                            0 (Answered master_answer)) in
  fst (newServer w1 "A" "A").

(** An environment in which nothing else touches the cluster, the clock
    advances ten nanoseconds a tick, and no server hands out a socket. *)
Definition lonely_env : env :=
  {| now := fun n => (10 * Z.of_nat n)%Z;
     others := fun _ w => w;
     dial := fun _ _ => None |}.

(** The counters of a pass agree, up to the width of [int], with the
    number of branches that have been started and have not yet run their
    deferred function. *)
Definition counted (p : pass) : Prop :=
  exists k,
    (started p - finished p - Z.of_nat (List.length (branches p))
     = k * 4294967296)%Z.

(** A pass in which the first known address has been spawned and its
    [newServer] has failed, so that the branch is about to run its
    deferred function. *)
Definition first_branch_returning (addrs : list string) : world * pass :=
  match pass_run [MainSpawn; NewServerFails 0 "no such host"]
                 (newCluster addrs, pass_init addrs) with
  | Some x => x
  | None => (newCluster addrs, pass_init addrs)
  end.

(** Settles [cluster_inv] on a closed world by running it. *)
Ltac concrete_inv :=
  unfold cluster_inv, partition, keyed, roles_agree; vm_compute;
  repeat split; intros;
  repeat match goal with
         | H : _ \/ _ |- _ => destruct H
         | H : _ /\ _ |- _ => destruct H
         | H : False |- _ => destruct H
         end;
  subst; auto; try discriminate.

(** Two worlds with the same three sets over the same handles. *)
Definition same_sets (w w' : world) : Prop :=
  mem w' = mem w
  /\ servers (cluster w') = servers (cluster w)
  /\ masters (cluster w') = masters (cluster w)
  /\ slaves (cluster w') = slaves (cluster w).

(** The [seen] map and the [known] slice of getKnownAddrs hold the same
    addresses, and [known] holds each once. *)
Definition tracks (acc : list string * list string) : Prop :=
  NoDup (snd acc) /\ forall a, In a (fst acc) <-> In a (snd acc).

(** The operations of a history that never call removeServer: probes that
    are answered, and the reference and pass bookkeeping. *)
Definition peaceful (o : op) : bool :=
  match o with
  | OpProbe _ _ (Answered _) => true
  | OpAcquire | OpRelease | OpBeginPass | OpFinishPass => true
  | _ => false
  end.

(** Every registered handle has been handed out by newServer. *)
Definition allocated (w : world) : Prop :=
  forall p, In p (servers (cluster w)) -> p < next w.

(** [n] calls of Release in a row; [None] when one of them panics. *)
Fixpoint Release_n (n : nat) (w : world) : option world :=
  match n with
  | O => Some w
  | S k =>
      match Release w with
      | Some w' => Release_n k w'
      | None => None
      end
  end.

(** No other goroutine changes the cluster while AcquireSocket holds no
    lock. *)
Definition undisturbed (e : env) : Prop :=
  forall n v, cluster (others e n v) = cluster v.




(** What holds of a pass after [n] moves as long as [n] fits an [int]:
    the counters are exact, every known address that the range loop has
    visited has been counted, and when the loop has ended and no branch is
    in flight the coordinator has been let through or has gone through. *)
Definition exact (n : Z) (p : pass) : Prop :=
  (0 <= finished p)%Z
  /\ (started p = finished p + Z.of_nat (List.length (branches p)))%Z
  /\ (started p <= n)%Z
  /\ (Z.of_nat (List.length (known p)) - Z.of_nat (List.length (todo p))
      <= started p)%Z
  /\ (known p <> [] -> todo p = [] -> branches p = [] ->
      done_locked p = false \/ passed p = true).

(** ** Machine integers *)

Section GoIntFacts.
Import GoInt.
Local Open Scope Z_scope.

Lemma int_wrap_small z : in_int z -> int_wrap z = z.
Proof.
  unfold in_int, int_wrap, wrap, intSize. intros H.
  change (2 ^ (32 - 1)) with 2147483648.
  change (2 ^ 32) with 4294967296.
  change (2 ^ 31) with 2147483648 in H.
  rewrite Z.mod_small; lia.
Qed.

Lemma int_wrap_in_int z : in_int (int_wrap z).
Proof.
  unfold in_int, int_wrap, wrap, intSize.
  change (2 ^ (32 - 1)) with 2147483648.
  change (2 ^ 32) with 4294967296.
  change (2 ^ 31) with 2147483648.
  pose proof (Z.mod_pos_bound (z + 2147483648) 4294967296 ltac:(lia)).
  lia.
Qed.

Lemma int_wrap_shift z : exists k, int_wrap z = z + k * 4294967296.
Proof.
  unfold int_wrap, wrap, intSize.
  change (2 ^ (32 - 1)) with 2147483648.
  change (2 ^ 32) with 4294967296.
  exists (- ((z + 2147483648) / 4294967296)).
  pose proof (Z.div_mod (z + 2147483648) 4294967296 ltac:(lia)).
  lia.
Qed.

Lemma int_pred_zero z : in_int z -> (int_wrap (z - 1) = 0 <-> z = 1).
Proof.
  intros H. split.
  - intros E. destruct (int_wrap_shift (z - 1)) as [k Hk].
    pose proof (int_wrap_in_int (z - 1)) as R.
    unfold in_int in *. change (2 ^ 31) with 2147483648 in *. lia.
  - intros ->. reflexivity.
Qed.

End GoIntFacts.

(** ** Server sets *)

Section ServersFacts.
Import Servers.

Lemma same_addr_true h p q :
  same_addr h p q = true <-> Addr (h p) = Addr (h q).
Proof. unfold same_addr. apply String.eqb_eq. Qed.

Lemma same_addr_refl h p : same_addr h p p = true.
Proof. apply same_addr_true. reflexivity. Qed.

Lemma Addr_SetMaster h p b q : Addr (SetMaster h p b q) = Addr (h q).
Proof.
  unfold SetMaster, store. destruct (Nat.eqb_spec q p); subst; reflexivity.
Qed.

Lemma Master_SetMaster h p b q :
  Master (SetMaster h p b q) = if Nat.eqb q p then b else Master (h q).
Proof. unfold SetMaster, store. destruct (Nat.eqb q p); reflexivity. Qed.

Lemma same_addr_SetMaster h p b x y :
  same_addr (SetMaster h p b) x y = same_addr h x y.
Proof. unfold same_addr. now rewrite !Addr_SetMaster. Qed.

Lemma Search_SetMaster h p b l s :
  Search (SetMaster h p b) l s = Search h l s.
Proof.
  unfold Search. induction l as [|x l IH]; simpl; [reflexivity|].
  rewrite same_addr_SetMaster, IH. reflexivity.
Qed.

Lemma Search_Some h l s p :
  Search h l s = Some p -> In p l /\ Addr (h p) = Addr (h s).
Proof.
  unfold Search. intros H. apply find_some in H as [H1 H2].
  split; [assumption|]. now apply same_addr_true.
Qed.

Lemma Search_None h l s q :
  Search h l s = None -> In q l -> Addr (h q) <> Addr (h s).
Proof.
  unfold Search. intros H Hq E.
  pose proof (find_none _ _ H q Hq) as F. simpl in F.
  apply same_addr_true in E. congruence.
Qed.

Lemma Search_Add_fresh h l s t :
  Search h l t = None -> Addr (h s) = Addr (h t) ->
  Search h (Add l s) t = Some s.
Proof.
  unfold Search, Add. induction l as [|x l IH]; simpl; intros H E.
  - apply same_addr_true in E. now rewrite E.
  - destruct (same_addr h x t); [discriminate|]. now apply IH.
Qed.

Lemma In_Remove h l s q :
  In q (fst (Remove h l s)) <-> In q l /\ Addr (h q) <> Addr (h s).
Proof.
  unfold Remove. simpl. rewrite filter_In. split; intros [H1 H2].
  - split; [assumption|]. intros E. apply same_addr_true in E.
    rewrite E in H2. discriminate.
  - split; [assumption|]. destruct (same_addr h q s) eqn:E; [|reflexivity].
    apply same_addr_true in E. contradiction.
Qed.

Lemma Remove_reports h l s : snd (Remove h l s) = has_addr h l s.
Proof. reflexivity. Qed.

Lemma Remove_absent h l s : has_addr h l s = false -> fst (Remove h l s) = l.
Proof.
  unfold has_addr, Remove. simpl.
  induction l as [|x l IH]; simpl; [reflexivity|].
  destruct (same_addr h x s); simpl; [discriminate|].
  intros H. now rewrite IH.
Qed.

Lemma has_addr_Remove h l s : has_addr h (fst (Remove h l s)) s = false.
Proof.
  unfold has_addr, Remove. simpl.
  induction l as [|x l IH]; simpl; [reflexivity|].
  destruct (same_addr h x s) eqn:E; simpl; [assumption|].
  now rewrite E.
Qed.

Lemma has_addr_In h l s :
  has_addr h l s = true <-> exists q, In q l /\ Addr (h q) = Addr (h s).
Proof.
  unfold has_addr. rewrite existsb_exists.
  split; intros [q [H1 H2]]; exists q; split; try assumption;
    now apply same_addr_true.
Qed.

End ServersFacts.

(** ** removeServer *)

Lemma with_cluster_same w : with_cluster w (cluster w) = w.
Proof. destruct w; reflexivity. Qed.

Lemma set_sets_same c :
  set_slaves (set_masters (set_servers c (servers c)) (masters c)) (slaves c)
  = c.
Proof. destruct c; reflexivity. Qed.

Lemma removeServer_mem w server : mem (removeServer w server) = mem w.
Proof.
  unfold removeServer, Servers.Remove.
  repeat match goal with
         | |- context [if ?b then _ else _] => destruct b
         end; reflexivity.
Qed.

Lemma removeServer_clears w server :
  has_addr (mem w) (servers (cluster (removeServer w server))) server = false.
Proof.
  pose proof (has_addr_Remove (mem w) (servers (cluster w)) server) as G.
  unfold removeServer.
  destruct (Servers.Remove (mem w) (servers (cluster w)) server)
    as [servers1 removed1].
  destruct (Servers.Remove (mem w) (masters (cluster w)) server)
    as [masters1 removed2].
  destruct (Servers.Remove (mem w) (slaves (cluster w)) server)
    as [slaves1 removed3].
  simpl in G. destruct removed1, removed2, removed3; exact G.
Qed.

Lemma removeServer_absent w server :
  known_to w server = false -> removeServer w server = w.
Proof.
  unfold known_to. intros K.
  apply Bool.orb_false_elim in K as [K K3].
  apply Bool.orb_false_elim in K as [K1 K2].
  pose proof (Remove_absent _ _ _ K1) as A1.
  pose proof (Remove_absent _ _ _ K2) as A2.
  pose proof (Remove_absent _ _ _ K3) as A3.
  unfold removeServer, Servers.Remove, has_addr in *. simpl in A1, A2, A3.
  rewrite K1, K2, K3, A1, A2, A3, set_sets_same.
  apply with_cluster_same.
Qed.

(** C2, as the code has it: removeServer leaves no handle with the
    server's address in the server set and never touches a handle; when
    some set held the address it logs the removal, and when none did it
    changes nothing and logs nothing. *)
Theorem removeServer_spec w server :
  mem (removeServer w server) = mem w
  /\ has_addr (mem w) (servers (cluster (removeServer w server))) server
     = false
  /\ (if known_to w server
      then trace (removeServer w server)
           = trace w ++ [EvLog (removing_msg w server)]
      else removeServer w server = w).
Proof.
  split; [apply removeServer_mem|].
  unfold known_to.
  pose proof (has_addr_Remove (mem w) (servers (cluster w)) server) as G.
  pose proof (Remove_absent (mem w) (servers (cluster w)) server) as A1.
  pose proof (Remove_absent (mem w) (masters (cluster w)) server) as A2.
  pose proof (Remove_absent (mem w) (slaves (cluster w)) server) as A3.
  unfold removeServer.
  destruct (Servers.Remove (mem w) (servers (cluster w)) server)
    as [servers1 removed1] eqn:R1.
  destruct (Servers.Remove (mem w) (masters (cluster w)) server)
    as [masters1 removed2] eqn:R2.
  destruct (Servers.Remove (mem w) (slaves (cluster w)) server)
    as [slaves1 removed3] eqn:R3.
  pose proof (Remove_reports (mem w) (servers (cluster w)) server) as P1.
  pose proof (Remove_reports (mem w) (masters (cluster w)) server) as P2.
  pose proof (Remove_reports (mem w) (slaves (cluster w)) server) as P3.
  rewrite R1 in P1. rewrite R2 in P2. rewrite R3 in P3.
  simpl in P1, P2, P3, G, A1, A2, A3.
  rewrite <- P1, <- P2, <- P3.
  destruct removed1; simpl; [split; [exact G|reflexivity]|].
  destruct removed2; simpl; [split; [exact G|reflexivity]|].
  destruct removed3; simpl; [split; [exact G|reflexivity]|].
  split; [exact G|].
  rewrite A1, A2, A3 by (symmetry; assumption).
  rewrite set_sets_same. apply with_cluster_same.
Qed.

(** C2, as worded, fails where no set holds the handle: nothing is
    logged. *)
Lemma removeServer_absent_not_logged :
  known_to (newCluster ["A"%string]) 0 = false
  /\ forall args,
       trace (removeServer (newCluster ["A"%string]) 0)
       <> trace (newCluster ["A"%string]) ++ [EvLog args].
Proof.
  split; [reflexivity|]. intros args. vm_compute. discriminate.
Qed.

(** C1: a master is probed and merged, then removed as AcquireSocket does
    after a failed dial.  [servers.Remove] succeeds, so [||] skips
    [masters.Remove]: the handle is gone from the server set and still a
    master. *)
Theorem removeServer_breaks_partition :
  exists w,
    run [OpProbe "A" "A" (Answered master_answer); OpRemove 0]
        (newCluster ["A"%string]) = Some w
    /\ reachable w
    /\ servers (cluster w) = [] /\ masters (cluster w) = [0]
    /\ slaves (cluster w) = []
    /\ ~ partition (cluster w).
Proof.
  eexists. split; [vm_compute; reflexivity|].
  split; [exists ["A"%string],
                 [OpProbe "A" "A" (Answered master_answer); OpRemove 0];
          vm_compute; reflexivity|].
  repeat (split; [reflexivity|]).
  intros [H _]. destruct (proj2 (H 0)) as [].
  left. simpl. left. reflexivity.
Qed.

(** ** mergeServer *)

Lemma Search_same_addr h l s t :
  Addr (h s) = Addr (h t) -> Servers.Search h l s = Servers.Search h l t.
Proof.
  intros E. unfold Servers.Search, Servers.same_addr. now rewrite E.
Qed.

(** The three sets and the heap after a merge, one case per path through
    lines 172-195. *)
Lemma mergeServer_sets w server :
  let c := cluster w in
  let c' := cluster (mergeServer w server) in
  match Servers.Search (mem w) (servers c) server with
  | None =>
      mem (mergeServer w server) = mem w
      /\ servers c' = Servers.Add (servers c) server
      /\ (if Master (mem w server)
          then masters c' = Servers.Add (masters c) server
               /\ slaves c' = slaves c
          else masters c' = masters c
               /\ slaves c' = Servers.Add (slaves c) server)
  | Some previous =>
      mem (mergeServer w server) = Merge (mem w) previous server
      /\ servers c' = servers c
      /\ (if Bool.eqb (Master (mem w server)) (Master (mem w previous))
          then masters c' = masters c /\ slaves c' = slaves c
          else if Master (mem w previous)
          then masters c'
               = fst (Servers.Remove (mem w) (masters c) previous)
               /\ slaves c' = Servers.Add (slaves c) previous
          else masters c' = Servers.Add (masters c) previous
               /\ slaves c'
                  = fst (Servers.Remove (mem w) (slaves c) previous))
  end.
Proof.
  unfold mergeServer. cbv zeta.
  destruct (Servers.Search (mem w) (servers (cluster w)) server)
    as [previous|].
  - destruct (Bool.eqb (Master (mem w server)) (Master (mem w previous)));
      simpl; [auto|].
    destruct (Master (mem w previous)); simpl; auto.
  - destruct (Master (mem w server)); simpl; auto.
Qed.

(** A merge that finds its handle registered with the role it reports only
    refreshes that handle and wakes the waiters. *)
Lemma mergeServer_quiet w server previous :
  Servers.Search (mem w) (servers (cluster w)) server = Some previous ->
  Master (mem w server) = Master (mem w previous) ->
  mergeServer w server
  = emit (with_mem w (Merge (mem w) previous server)) EvBroadcast.
Proof.
  intros S E. unfold mergeServer. cbv zeta. rewrite S, E.
  rewrite Bool.eqb_reflx. reflexivity.
Qed.

(** After any merge the server set has a handle for the address, and that
    handle carries the role the merge reported. *)
Lemma mergeServer_registers w s1 s2 :
  Addr (mem w s1) = Addr (mem w s2) ->
  Master (mem w s1) = Master (mem w s2) ->
  exists q,
    Servers.Search (mem (mergeServer w s1))
                   (servers (cluster (mergeServer w s1))) s2 = Some q
    /\ Master (mem (mergeServer w s1) s2) = Master (mem (mergeServer w s1) q).
Proof.
  intros EA EM.
  pose proof (mergeServer_sets w s1) as H. cbv zeta in H.
  destruct (Servers.Search (mem w) (servers (cluster w)) s1)
    as [previous|] eqn:S.
  - destruct H as (Hm & Hs & _). exists previous. rewrite Hm, Hs.
    unfold Merge. rewrite Search_SetMaster, !Master_SetMaster.
    rewrite <- (Search_same_addr _ _ _ _ EA), S, Nat.eqb_refl.
    split; [reflexivity|].
    destruct (Nat.eqb s2 previous); congruence.
  - destruct H as (Hm & Hs & _). exists s1. rewrite Hm, Hs. split.
    + apply Search_Add_fresh; [|assumption].
      now rewrite <- (Search_same_addr _ _ _ _ EA).
    + congruence.
Qed.

(** C4: a second merge of the same address with the same role leaves the
    three sets as the first merge left them, moves nothing, and does no
    more than wake the waiters. *)
Theorem mergeServer_idempotent w s1 s2 :
  Addr (mem w s1) = Addr (mem w s2) ->
  Master (mem w s1) = Master (mem w s2) ->
  servers (cluster (mergeServer (mergeServer w s1) s2))
  = servers (cluster (mergeServer w s1))
  /\ masters (cluster (mergeServer (mergeServer w s1) s2))
     = masters (cluster (mergeServer w s1))
  /\ slaves (cluster (mergeServer (mergeServer w s1) s2))
     = slaves (cluster (mergeServer w s1))
  /\ merge_moves (mergeServer w s1) s2 = false
  /\ trace (mergeServer (mergeServer w s1) s2)
     = trace (mergeServer w s1) ++ [EvBroadcast].
Proof.
  intros EA EM.
  destruct (mergeServer_registers w s1 s2 EA EM) as (q & S & E).
  rewrite (mergeServer_quiet _ _ _ S E).
  unfold merge_moves. rewrite S, E, Bool.eqb_reflx.
  repeat split; reflexivity.
Qed.

Lemma mergeServer_idempotent_witness :
  let w := fst (newServer (fst (newServer (newCluster ["A"%string])
                                          "A" "A")) "A" "A") in
  Addr (mem w 0) = Addr (mem w 1)
  /\ Master (mem w 0) = Master (mem w 1)
  /\ servers (cluster (mergeServer (mergeServer w 0) 1))
     = servers (cluster (mergeServer w 0))
  /\ masters (cluster (mergeServer (mergeServer w 0) 1))
     = masters (cluster (mergeServer w 0))
  /\ slaves (cluster (mergeServer (mergeServer w 0) 1))
     = slaves (cluster (mergeServer w 0))
  /\ merge_moves (mergeServer w 0) 1 = false
  /\ trace (mergeServer (mergeServer w 0) 1)
     = trace (mergeServer w 0) ++ [EvBroadcast].
Proof.
  cbv zeta. split; [reflexivity|]. split; [reflexivity|].
  apply mergeServer_idempotent; reflexivity.
Defined.





Lemma keyed_Merge h l previous server :
  keyed h l -> keyed (Merge h previous server) l.
Proof.
  unfold keyed, Merge. intros K p q Hp Hq. rewrite !Addr_SetMaster.
  now apply K.
Qed.

Lemma In_Add l server p : In p (Servers.Add l server) <-> In p l \/ p = server.
Proof.
  unfold Servers.Add. rewrite in_app_iff. simpl. intuition congruence.
Qed.

(** mergeServer keeps the sets a keyed partition with agreeing flags. *)
Lemma mergeServer_inv w server :
  cluster_inv w -> cluster_inv (mergeServer w server).
Proof.
  intros ((Pu & Pd) & K & Ra & Rs).
  pose proof (mergeServer_sets w server) as H. cbv zeta in H.
  unfold cluster_inv, partition, roles_agree.
  destruct (Servers.Search (mem w) (servers (cluster w)) server)
    as [previous|] eqn:S.
  - destruct H as (Hm & Hs & H). rewrite Hm, Hs.
    pose proof (Search_Some _ _ _ _ S) as [Ip Ep].
    split; [|split; [now apply keyed_Merge|]].
    + destruct (Bool.eqb (Master (mem w server)) (Master (mem w previous))).
      { destruct H as [-> ->]. split; assumption. }
      destruct (Master (mem w previous)) eqn:Fp; destruct H as [-> ->].
      * split.
        -- intros p. rewrite In_Remove, In_Add, Pu. split.
           ++ intros [I|I]; [|tauto].
              destruct (string_dec (Addr (mem w p)) (Addr (mem w previous)))
                as [E|E]; [|tauto].
              right. right. apply K; [apply Pu; tauto|assumption|assumption].
           ++ intros [[I _]|[I| ->]]; [tauto|tauto|]. now apply Pu.
        -- intros p [I J]. apply In_Remove in I as [I N].
           apply In_Add in J as [J| ->]; [apply (Pd p); tauto|tauto].
      * split.
        -- intros p. rewrite In_Remove, In_Add, Pu. split.
           ++ intros [I|I]; [tauto|].
              destruct (string_dec (Addr (mem w p)) (Addr (mem w previous)))
                as [E|E]; [|tauto].
              left. right. apply K; [apply Pu; tauto|assumption|assumption].
           ++ intros [[I| ->]|[I _]]; [tauto| |tauto]. now apply Pu.
        -- intros p [I J]. apply In_Remove in J as [J N].
           apply In_Add in I as [I| ->]; [apply (Pd p); tauto|tauto].
    + unfold Merge.
      destruct (Bool.eqb (Master (mem w server)) (Master (mem w previous)))
        eqn:EB.
      { destruct H as [-> ->]. apply Bool.eqb_prop in EB.
        split; intros p I; rewrite Master_SetMaster;
          destruct (Nat.eqb_spec p previous) as [->|];
          try rewrite EB; auto. }
      apply Bool.eqb_false_iff in EB.
      destruct (Master (mem w previous)) eqn:Fp; destruct H as [-> ->].
      * split; intros p I; rewrite Master_SetMaster.
        -- apply In_Remove in I as [I N].
           destruct (Nat.eqb_spec p previous) as [->|]; [tauto|auto].
        -- destruct (Nat.eqb_spec p previous) as [->|].
           ++ destruct (Master (mem w server)); congruence.
           ++ apply In_Add in I as [I|I]; [auto|contradiction].
      * split; intros p I; rewrite Master_SetMaster.
        -- destruct (Nat.eqb_spec p previous) as [->|].
           ++ destruct (Master (mem w server)); congruence.
           ++ apply In_Add in I as [I|I]; [auto|contradiction].
        -- apply In_Remove in I as [I N].
           destruct (Nat.eqb_spec p previous) as [->|]; [tauto|auto].
  - destruct H as (Hm & Hs & H). rewrite Hm, Hs.
    assert (Fresh : forall q, In q (servers (cluster w)) ->
                              Addr (mem w q) <> Addr (mem w server))
      by (intros q; apply Search_None; assumption).
    assert (Out : ~ In server (servers (cluster w)))
      by (intros I; exact (Fresh _ I eq_refl)).
    split; [|split].
    + destruct (Master (mem w server)); destruct H as [-> ->]; split.
      * intros p. rewrite !In_Add, Pu. tauto.
      * intros p [I J]. apply In_Add in I as [I| ->].
        -- apply (Pd p); tauto.
        -- apply Out, Pu. tauto.
      * intros p. rewrite !In_Add, Pu. tauto.
      * intros p [I J]. apply In_Add in J as [J| ->].
        -- apply (Pd p); tauto.
        -- apply Out, Pu. tauto.
    + intros p q Hp Hq E.
      apply In_Add in Hp as [Hp| ->]; apply In_Add in Hq as [Hq| ->].
      * now apply K.
      * destruct (Fresh _ Hp E).
      * destruct (Fresh _ Hq (eq_sym E)).
      * reflexivity.
    + destruct (Master (mem w server)) eqn:F; destruct H as [-> ->];
        split; intros p I; try apply In_Add in I as [I| ->]; auto.
Qed.

Lemma newCluster_inv seeds : cluster_inv (newCluster seeds).
Proof.
  unfold cluster_inv, partition, keyed, roles_agree. simpl. tauto.
Qed.


Lemma demote_example_inv : cluster_inv demote_example.
Proof. concrete_inv. Defined.


(** ** What keeps the partition and what does not *)

Lemma same_sets_inv w w' : same_sets w w' -> cluster_inv w -> cluster_inv w'.
Proof.
  unfold same_sets, cluster_inv, partition, roles_agree.
  intros (-> & -> & -> & ->). auto.
Qed.

Lemma Acquire_sets w : same_sets w (Acquire w).
Proof. unfold same_sets. simpl. auto. Qed.

Lemma syncServers_guard_sets w w' :
  syncServers_guard w = Some w' -> same_sets w w'.
Proof.
  unfold syncServers_guard. cbv zeta.
  destruct (syncing (cluster w) || (references (cluster w) =? 0)%Z);
    [discriminate|].
  intros E. injection E as <-. unfold same_sets. simpl. auto.
Qed.

Lemma finishPass_sets w : same_sets w (fst (finishPass w)).
Proof.
  unfold finishPass, same_sets. cbv zeta. simpl.
  destruct (Servers.Empty (servers (cluster w)));
    destruct (Servers.Len (masters (cluster w)) =? 0)%Z; simpl; auto.
Qed.

(** Lines 92-96 when [servers.Remove] succeeds. *)
Lemma removeServer_hit w server :
  has_addr (mem w) (servers (cluster w)) server = true ->
  removeServer w server
  = log (with_cluster w
           (set_servers (cluster w)
              (fst (Servers.Remove (mem w) (servers (cluster w)) server))))
        (removing_msg w server).
Proof.
  unfold removeServer, Servers.Remove, has_addr. intros H. rewrite H.
  reflexivity.
Qed.

(** X7: from a cluster whose sets are a keyed partition with agreeing
    role flags, removeServer gives such a cluster exactly when the server
    set does not hold the address; removing a server the server set knows
    breaks the partition. *)
Lemma removeServer_inv w server :
  cluster_inv w ->
  (cluster_inv (removeServer w server)
   <-> has_addr (mem w) (servers (cluster w)) server = false).
Proof.
  intros I. split.
  - intros ((Pu' & _) & _).
    destruct (has_addr (mem w) (servers (cluster w)) server) eqn:H;
      [exfalso|reflexivity].
    pose proof H as H0.
    apply has_addr_In in H as (q & Iq & Eq).
    destruct I as ((Pu & _) & _).
    assert (O : In q (masters (cluster w)) \/ In q (slaves (cluster w)))
      by now apply Pu.
    assert (G : ~ In q (servers (cluster (removeServer w server)))).
    { intros J.
      pose proof (removeServer_clears w server) as F.
      assert (T : has_addr (mem w)
                    (servers (cluster (removeServer w server))) server
                  = true)
        by (apply has_addr_In; exists q; auto).
      congruence. }
    apply G, Pu'. rewrite (removeServer_hit w server H0). exact O.
  - intros H.
    assert (K : known_to w server = false).
    { unfold known_to. rewrite H. simpl.
      destruct I as ((Pu & _) & _).
      destruct (has_addr (mem w) (masters (cluster w)) server) eqn:M.
      - apply has_addr_In in M as (q & Iq & Eq).
        assert (T : has_addr (mem w) (servers (cluster w)) server = true)
          by (apply has_addr_In; exists q; split; [apply Pu|]; auto).
        congruence.
      - destruct (has_addr (mem w) (slaves (cluster w)) server) eqn:S;
          [|reflexivity].
        apply has_addr_In in S as (q & Iq & Eq).
        assert (T : has_addr (mem w) (servers (cluster w)) server = true)
          by (apply has_addr_In; exists q; split; [apply Pu|]; auto).
        congruence. }
    rewrite (removeServer_absent w server K). exact I.
Qed.

(** ** Release *)

Lemma close_all_trace l : forall w,
  trace (close_all w l) = trace w ++ map EvClose l
  /\ cluster (close_all w l) = cluster w
  /\ mem (close_all w l) = mem w.
Proof.
  unfold close_all. induction l as [|x l IH]; intros w; simpl.
  - rewrite app_nil_r. auto.
  - destruct (IH (emit w (EvClose x))) as (T & C & M).
    rewrite T, C, M. simpl. rewrite <- app_assoc. auto.
Qed.

Lemma Release_zero w : references (cluster w) = 0%Z -> Release w = None.
Proof. intros E. unfold Release. now rewrite E. Qed.

Lemma Release_some w :
  references (cluster w) <> 0%Z ->
  exists w',
    Release w = Some w'
    /\ references (cluster w') = GoInt.int_wrap (references (cluster w) - 1)
    /\ servers (cluster w') = servers (cluster w)
    /\ mem w' = mem w
    /\ trace w'
       = trace w
         ++ (if (references (cluster w') =? 0)%Z
             then map EvClose (Servers.Slice (servers (cluster w)))
             else []).
Proof.
  intros N. unfold Release.
  destruct (Z.eqb_spec (references (cluster w)) 0) as [E|_]; [contradiction|].
  cbv zeta.
  destruct (GoInt.int_wrap (references (cluster w) - 1) =? 0)%Z eqn:Z0.
  - eexists. split; [reflexivity|].
    match goal with
    | |- context [close_all ?x ?l] =>
        destruct (close_all_trace l x) as (T & C & M)
    end.
    rewrite T, C, M. simpl. rewrite Z0. auto.
  - eexists. split; [reflexivity|]. simpl. rewrite Z0, app_nil_r. auto.
Qed.

Lemma Release_sets w w' : Release w = Some w' -> same_sets w w'.
Proof.
  unfold Release.
  destruct (references (cluster w) =? 0)%Z; [discriminate|]. cbv zeta.
  destruct (GoInt.int_wrap (references (cluster w) - 1) =? 0)%Z;
    intros E; injection E as <-.
  - match goal with
    | |- context [close_all ?x ?l] =>
        destruct (close_all_trace l x) as (_ & C & M)
    end.
    unfold same_sets. rewrite C, M. simpl. auto.
  - unfold same_sets. simpl. auto.
Qed.

(** The end of a pass keeps the three sets and the handles as they are. *)
Lemma syncServers_complete_sets w w' restart :
  syncServers_complete w = Some (w', restart) -> same_sets w w'.
Proof.
  unfold syncServers_complete.
  pose proof (finishPass_sets w) as F.
  destruct (finishPass w) as [w1 r]. simpl in F.
  destruct (Release w1) as [w2|] eqn:R; [|discriminate].
  intros E. injection E as <- <-. apply Release_sets in R.
  destruct F as (F1 & F2 & F3 & F4), R as (R1 & R2 & R3 & R4).
  unfold same_sets.
  destruct r; simpl; rewrite R1, R2, R3, R4; auto.
Qed.

(** C6: Release panics on a count of zero; on any other count it stores
    the decremented count and closes the servers, each once and in order,
    exactly when that count is zero, which for a count in range is the
    step from 1 to 0; a Release that follows the teardown panics. *)
Theorem Release_spec w :
  (references (cluster w) = 0%Z -> Release w = None)
  /\ (references (cluster w) <> 0%Z ->
      exists w',
        Release w = Some w'
        /\ references (cluster w')
           = GoInt.int_wrap (references (cluster w) - 1)
        /\ servers (cluster w') = servers (cluster w)
        /\ trace w'
           = trace w
             ++ (if (references (cluster w') =? 0)%Z
                 then map EvClose (Servers.Slice (servers (cluster w)))
                 else [])
        /\ (references (cluster w') = 0%Z -> Release w' = None))
  /\ (GoInt.in_int (references (cluster w)) ->
      (GoInt.int_wrap (references (cluster w) - 1) = 0%Z
       <-> references (cluster w) = 1%Z)
      /\ (references (cluster w) <> (- 2 ^ 31)%Z ->
          GoInt.int_wrap (references (cluster w) - 1)
          = (references (cluster w) - 1)%Z)).
Proof.
  split; [apply Release_zero|]. split.
  - intros N. destruct (Release_some w N) as (w' & R & C & S & _ & T).
    exists w'. repeat (split; [assumption|]). apply Release_zero.
  - intros I. split; [now apply int_pred_zero|].
    intros N. apply int_wrap_small. unfold GoInt.in_int in *. lia.
Qed.

Lemma Release_spec_witness :
  let w := fst (syncServer (fst (newServer (newCluster ["A"%string])
                                           "A" "A"))
                           0 (Answered master_answer)) in
  references (cluster w) <> 0%Z
  /\ GoInt.in_int (references (cluster w))
  /\ exists w',
       Release w = Some w' /\ references (cluster w') = 0%Z
       /\ trace w' = trace w ++ [EvClose 0] /\ Release w' = None.
Proof.
  cbv zeta. split; [intros H; vm_compute in H; discriminate H|].
  split; [vm_compute; split; [intros H; discriminate H|reflexivity]|].
  match goal with
  | |- exists w', Release ?w = _ /\ _ =>
      destruct (proj1 (proj2 (Release_spec w)))
        as (w' & R & C & _ & T & P);
        [intros H; vm_compute in H; discriminate H|]; exists w'
  end.
  split; [exact R|]. split; [exact C|]. split; [|apply P; exact C].
  rewrite T, C. reflexivity.
Defined.

(** ** Choosing a server *)

(** C8: past the readiness test AcquireSocket has a server to dial: a
    master for a write, a slave for a read when there is a slave, and a
    master for a read when there is none. *)
Theorem pick_spec write c :
  eligible write c = true ->
  exists server,
    pick write c = Some server
    /\ (write = true -> In server (masters c))
    /\ (write = false -> slaves c <> [] -> In server (slaves c))
    /\ (write = false -> slaves c = [] -> In server (masters c)).
Proof.
  unfold eligible, pick, Servers.Empty, Servers.Get. intros E.
  destruct write, (masters c) as [|m ms], (slaves c) as [|s ss];
    simpl in *; try discriminate;
    eexists; (split; [reflexivity|]);
    repeat split; intros; simpl; auto; congruence.
Qed.


Lemma pick_spec_witness :
  let c := cluster demote_example in
  eligible false c = true
  /\ exists server,
       pick false c = Some server
       /\ (false = true -> In server (masters c))
       /\ (false = false -> slaves c <> [] -> In server (slaves c))
       /\ (false = false -> slaves c = [] -> In server (masters c)).
Proof.
  cbv zeta. split; [reflexivity|]. apply pick_spec. reflexivity.
Defined.

(** ** The end of a pass *)

Lemma Release_dynaSeeds w w' :
  Release w = Some w' -> dynaSeeds (cluster w') = dynaSeeds (cluster w).
Proof.
  unfold Release.
  destruct (references (cluster w) =? 0)%Z; [discriminate|]. cbv zeta.
  destruct (GoInt.int_wrap (references (cluster w) - 1) =? 0)%Z;
    intros E; injection E as <-.
  - match goal with
    | |- context [close_all ?x ?l] =>
        destruct (close_all_trace l x) as (_ & C & _)
    end.
    rewrite C. reflexivity.
  - reflexivity.
Qed.

(** C9: the locked end of a pass leaves the dynamic seeds alone when the
    server set is empty and otherwise replaces them by the addresses of
    the servers, in order; the release and the sleep that follow do not
    touch them. *)
Theorem finishPass_dynaSeeds w :
  dynaSeeds (cluster (fst (finishPass w)))
  = (if Servers.Empty (servers (cluster w))
     then dynaSeeds (cluster w)
     else map (fun server => Addr (mem w server))
              (Servers.Slice (servers (cluster w))))
  /\ (forall w' restart,
        syncServers_complete w = Some (w', restart) ->
        dynaSeeds (cluster w') = dynaSeeds (cluster (fst (finishPass w)))).
Proof.
  split.
  - unfold finishPass. cbv zeta. simpl.
    destruct (Servers.Empty (servers (cluster w)));
      destruct (Servers.Len (masters (cluster w)) =? 0)%Z; reflexivity.
  - intros w' restart. unfold syncServers_complete.
    destruct (finishPass w) as [w1 r]. simpl.
    destruct (Release w1) as [w2|] eqn:R; [|discriminate].
    intros E. injection E as <- <-.
    apply Release_dynaSeeds in R. destruct r; simpl; assumption.
Qed.

Lemma finishPass_dynaSeeds_witness :
  exists w',
    syncServers_complete demote_example = Some (w', false)
    /\ dynaSeeds (cluster w') = ["A"%string].
Proof.
  eexists. split; [vm_compute; reflexivity|].
  rewrite (proj2 (finishPass_dynaSeeds demote_example) _ false)
    by (vm_compute; reflexivity).
  rewrite (proj1 (finishPass_dynaSeeds demote_example)). reflexivity.
Defined.

(** ** AcquireSocket *)







(** ** The fan-out of a pass *)

Lemma length_replace_nth {A} (x : A) l :
  forall i, List.length (replace_nth i x l) = List.length l.
Proof.
  induction l as [|y l IH]; intros [|i]; simpl; auto.
Qed.

Lemma length_remove_nth {A} (l : list A) :
  forall i x, nth_error l i = Some x ->
              S (List.length (remove_nth i l)) = List.length l.
Proof.
  induction l as [|y l IH]; intros [|i] x; simpl; try discriminate; auto.
  intros H. f_equal. exact (IH _ _ H).
Qed.

Lemma pass_init_counted addrs : counted (pass_init addrs).
Proof. exists 0%Z. reflexivity. Qed.

Lemma spawnSync_counted p addr : counted p -> counted (spawnSync p addr).
Proof.
  intros [k H]. unfold counted. simpl.
  destruct (int_wrap_shift (started p + 1)) as [j ->].
  rewrite length_app. simpl. exists (k + j)%Z. lia.
Qed.

Lemma deferred_counted p b :
  counted (set_branches p (b :: branches p)) -> counted (fst (deferred p)).
Proof.
  intros [k H]. unfold counted. simpl in *.
  destruct (int_wrap_shift (finished p + 1)) as [j ->].
  exists (k - j)%Z. lia.
Qed.

Lemma replace_counted p i b :
  counted p -> counted (set_branches p (replace_nth i b (branches p))).
Proof.
  intros [k H]. exists k. simpl. rewrite length_replace_nth. exact H.
Qed.

(** Every move keeps the counters in step with the branches in flight and
    leaves [known] alone. *)
Lemma pass_act_counted a w p w' p' :
  pass_act a (w, p) = Some (w', p') ->
  counted p -> counted p' /\ known p' = known p.
Proof.
  unfold pass_act. destruct (crashed p); [discriminate|].
  destruct a as [| |i err|i resolved|i pr|i|i].
  - destruct (passed p); [discriminate|].
    destruct (todo p) as [|addr rest]; [discriminate|].
    intros E C. injection E as <- <-. split; [|reflexivity].
    apply (spawnSync_counted p addr) in C.
    destruct C as [k C]. exists k. exact C.
  - destruct (todo p); [|discriminate].
    destruct (passed p || done_locked p); [discriminate|].
    intros E [k C]. injection E as <- <-. split; [|reflexivity].
    exists k. exact C.
  - destruct (nth_error (branches p) i) as [[addr|server|hosts]|];
      try discriminate.
    intros E C. injection E as <- <-. split; [|reflexivity].
    now apply replace_counted.
  - destruct (nth_error (branches p) i) as [[addr|server|hosts]|];
      try discriminate.
    simpl. destruct (existsb (String.eqb resolved) (seen p));
      intros E C; injection E as <- <-; (split; [|reflexivity]).
    + now apply replace_counted.
    + apply (replace_counted (set_seen p (resolved :: seen p))).
      destruct C as [k C]. exists k. exact C.
  - destruct (nth_error (branches p) i) as [[addr|server|hosts]|];
      try discriminate.
    destruct (syncServer w server pr) as [w1 r].
    intros E C. injection E as <- <-. split; [|reflexivity].
    now apply replace_counted.
  - destruct (nth_error (branches p) i) as [[addr|server|[|addr rest]]|];
      try discriminate.
    intros E C. injection E as <- <-. split; [|reflexivity].
    now apply spawnSync_counted, replace_counted.
  - destruct (nth_error (branches p) i) as [[addr|server|[|addr rest]]|] eqn:N;
      try discriminate.
    intros E C. injection E as <- <-. split; [|reflexivity].
    apply (deferred_counted (set_branches p (remove_nth i (branches p)))
                            (BHosts [])).
    destruct C as [k C]. exists k. simpl.
    pose proof (length_remove_nth _ _ _ N) as L. simpl in L. lia.
Qed.

Lemma pass_reach_counted addrs w0 y :
  pass_reach (w0, pass_init addrs) y ->
  counted (snd y) /\ known (snd y) = addrs.
Proof.
  induction 1 as [|[w p] [w' p'] a R [C K] A].
  - split; [apply pass_init_counted|reflexivity].
  - simpl in *. destruct (pass_act_counted _ _ _ _ _ A C) as [C' K'].
    split; [assumption|congruence].
Qed.

(** C3, as the code has it: the deferred function of a returning branch
    unlocks [done] exactly when, with this branch counted, [finished]
    equals [started] and is at least the number of known addresses; when
    it does, no started branch is left in flight. *)
Theorem deferred_signal addrs w0 w p i :
  pass_reach (w0, pass_init addrs) (w, p) ->
  (Z.of_nat (List.length (branches p)) <= 4294967296)%Z ->
  nth_error (branches p) i = Some (BHosts []) ->
  let q := set_branches p (remove_nth i (branches p)) in
  let fin := GoInt.int_wrap (finished p + 1) in
  (snd (deferred q) = true
   <-> started p = fin /\ (Z.of_nat (List.length addrs) <= fin)%Z)
  /\ (snd (deferred q) = true -> branches (fst (deferred q)) = []).
Proof.
  intros R B N. cbv zeta.
  destruct (pass_reach_counted _ _ _ R) as [[k C] K]. simpl in C, K.
  pose proof (length_remove_nth _ _ _ N) as L.
  assert (Q : snd (deferred (set_branches p (remove_nth i (branches p))))
              = true
              <-> started p = GoInt.int_wrap (finished p + 1)
                  /\ (Z.of_nat (List.length addrs)
                      <= GoInt.int_wrap (finished p + 1))%Z).
  { simpl. unfold quiesced. simpl. rewrite K, Bool.andb_true_iff.
    rewrite Z.eqb_eq, Z.geb_le. tauto. }
  split; [exact Q|].
  intros T. apply Q in T as [E _]. simpl.
  destruct (int_wrap_shift (finished p + 1)) as [j J].
  destruct (remove_nth i (branches p)) as [|b bs]; [reflexivity|].
  exfalso. simpl in L. lia.
Qed.

Lemma pass_run_reach l : forall x y z,
  pass_reach x y -> pass_run l y = Some z -> pass_reach x z.
Proof.
  induction l as [|a l IH]; intros x y z R; simpl.
  - intros E. injection E as <-. exact R.
  - destruct (pass_act a y) as [y'|] eqn:A; [|discriminate].
    apply IH. exact (reach_step x y y' a R A).
Qed.

Lemma deferred_signal_witness :
  let p := snd (first_branch_returning ["A"%string]) in
  pass_reach (newCluster ["A"%string], pass_init ["A"%string])
             (first_branch_returning ["A"%string])
  /\ (Z.of_nat (List.length (branches p)) <= 4294967296)%Z
  /\ nth_error (branches p) 0 = Some (BHosts [])
  /\ snd (deferred (set_branches p (remove_nth 0 (branches p)))) = true
  /\ branches (fst (deferred (set_branches p (remove_nth 0 (branches p)))))
     = [].
Proof.
  cbv zeta.
  assert (R : pass_reach (newCluster ["A"%string], pass_init ["A"%string])
                         (first_branch_returning ["A"%string])).
  { apply (pass_run_reach [MainSpawn; NewServerFails 0 "no such host"]
                          _ _ _ (reach_here _)).
    reflexivity. }
  assert (B : (Z.of_nat (List.length
                           (branches
                              (snd (first_branch_returning ["A"%string]))))
               <= 4294967296)%Z)
    by (intros H; vm_compute in H; discriminate H).
  split; [exact R|]. split; [exact B|]. split; [reflexivity|].
  destruct (deferred_signal ["A"%string] (newCluster ["A"%string])
              (fst (first_branch_returning ["A"%string]))
              (snd (first_branch_returning ["A"%string])) 0 R B eq_refl)
    as [Q E].
  assert (T : snd (deferred
                     (set_branches
                        (snd (first_branch_returning ["A"%string]))
                        (remove_nth 0
                           (branches
                              (snd (first_branch_returning ["A"%string]))))))
              = true)
    by reflexivity.
  split; [exact T|exact (E T)].
Defined.

(** C3, as worded, fails with two known addresses: the first branch
    returns before the second is spawned, so one branch was started and
    one has finished, and [done] stays locked. *)
Lemma first_quiescence_not_signalled :
  let p := snd (first_branch_returning ["A"%string; "B"%string]) in
  let r := deferred (set_branches p (remove_nth 0 (branches p))) in
  pass_run [MainSpawn; NewServerFails 0 "no such host"]
           (newCluster ["A"%string; "B"%string],
            pass_init ["A"%string; "B"%string])
  = Some (first_branch_returning ["A"%string; "B"%string])
  /\ pass_act (Return 0) (first_branch_returning ["A"%string; "B"%string])
     = Some (fst (first_branch_returning ["A"%string; "B"%string]), fst r)
  /\ started (fst r) = 1%Z /\ finished (fst r) = 1%Z
  /\ branches (fst r) = []
  /\ snd r = false /\ done_locked (fst r) = true.
Proof.
  cbv zeta. repeat split; reflexivity.
Qed.

(** With two known addresses the signal can also come before the second
    is spawned: the first branch learns of a host, that host's branch and
    then the first one return, and [finished] has reached the number of
    known addresses while [todo] is not empty. *)
Lemma signal_before_last_spawn :
  exists w p,
    pass_run [MainSpawn; Resolve 0 "A";
              Sync 0 (Answered {| IsMaster := true; Secondary := false;
                                  Primary := EmptyString;
                                  Hosts := ["C"%string]; Passives := [] |});
              SpawnHost 0; NewServerFails 1 "no such host"; Return 1;
              Return 0]
             (newCluster ["A"%string; "B"%string],
              pass_init ["A"%string; "B"%string]) = Some (w, p)
    /\ done_locked p = false /\ todo p = ["B"%string]
    /\ branches p = [].
Proof.
  eexists. eexists. split; [reflexivity|]. repeat split; reflexivity.
Qed.

(** ** A pass without known addresses *)

Lemma add_keeps acc a : snd (add acc a) = [] -> snd acc = [].
Proof.
  destruct acc as [sn kn]. unfold add.
  destruct (existsb (String.eqb a) sn); simpl; [auto|].
  destruct kn; [reflexivity|discriminate].
Qed.

Lemma add_tied acc a :
  (fst acc = [] <-> snd acc = []) ->
  (fst (add acc a) = [] <-> snd (add acc a) = [])
  /\ snd (add acc a) <> [].
Proof.
  destruct acc as [sn kn]. unfold add. simpl. intros T.
  destruct (existsb (String.eqb a) sn) eqn:E; simpl.
  - split; [assumption|]. intros K. apply T in K. subst sn. discriminate.
  - split; [split; [discriminate|destruct kn; discriminate]|].
    destruct kn; discriminate.
Qed.

Lemma fold_add_keeps l : forall acc,
  snd (fold_left add l acc) = [] -> snd acc = [].
Proof.
  induction l as [|a l IH]; intros acc; simpl; [auto|].
  intros H. apply (add_keeps acc a), IH, H.
Qed.

Lemma fold_add_tied l : forall acc,
  (fst acc = [] <-> snd acc = []) ->
  (fst (fold_left add l acc) = [] <-> snd (fold_left add l acc) = []).
Proof.
  induction l as [|a l IH]; intros acc T; simpl; [assumption|].
  apply IH, add_tied, T.
Qed.

Lemma fold_add_nil l acc :
  (fst acc = [] <-> snd acc = []) ->
  snd (fold_left add l acc) = [] -> l = [].
Proof.
  intros T H. destruct l as [|a l]; [reflexivity|]. simpl in H.
  apply fold_add_keeps in H. destruct (add_tied acc a T) as [_ N].
  contradiction.
Qed.

Lemma getKnownAddrs_nil w :
  getKnownAddrs w = []
  <-> userSeeds (cluster w) = [] /\ dynaSeeds (cluster w) = []
      /\ servers (cluster w) = [].
Proof.
  unfold getKnownAddrs, Servers.Slice. cbv zeta. split.
  - intros H.
    assert (T0 : fst (@nil string, @nil string) = []
                 <-> snd (@nil string, @nil string) = [])
      by (simpl; tauto).
    pose proof (fold_add_tied (userSeeds (cluster w)) _ T0) as T1.
    pose proof (fold_add_tied (dynaSeeds (cluster w)) _ T1) as T2.
    pose proof (fold_add_nil _ _ T2 H) as E3.
    apply fold_add_keeps in H.
    pose proof (fold_add_nil _ _ T1 H) as E2.
    apply fold_add_keeps in H.
    pose proof (fold_add_nil _ _ T0 H) as E1.
    split; [exact E1|]. split; [exact E2|].
    destruct (servers (cluster w)); [reflexivity|discriminate].
  - intros (-> & -> & ->). reflexivity.
Qed.

Lemma pass_init_nil_stuck a w : pass_act a (w, pass_init []) = None.
Proof.
  destruct a as [| |i err|i resolved|i pr|i|i]; simpl;
    try reflexivity; destruct i; reflexivity.
Qed.

Lemma pass_reach_nil w1 y :
  pass_reach (w1, pass_init []) y -> y = (w1, pass_init []).
Proof.
  induction 1 as [|y z a R IH A]; [reflexivity|].
  subst y. rewrite pass_init_nil_stuck in A. discriminate.
Qed.

(** C10: the known addresses are empty exactly when there are no user
    seeds, no dynamic seeds and no servers; a pass that starts from them
    then never starts a branch and never unlocks [done], no move of it is
    ever possible, and so the coordinator never gets past line 301. *)
Theorem empty_known_never_completes w0 :
  (getKnownAddrs w0 = []
   <-> userSeeds (cluster w0) = [] /\ dynaSeeds (cluster w0) = []
       /\ servers (cluster w0) = [])
  /\ (getKnownAddrs w0 = [] ->
      forall w1 w p,
        pass_reach (w1, pass_init (getKnownAddrs w0)) (w, p) ->
        started p = 0%Z /\ branches p = [] /\ done_locked p = true
        /\ passed p = false /\ forall a, pass_act a (w, p) = None)
  /\ (forall w1 w p,
        pass_reach (w1, pass_init (getKnownAddrs w0)) (w, p) ->
        passed p = true -> getKnownAddrs w0 <> []).
Proof.
  split; [apply getKnownAddrs_nil|]. split.
  - intros E w1 w p R. rewrite E in R. apply pass_reach_nil in R.
    injection R as -> ->. repeat (split; [reflexivity|]).
    intros a. apply pass_init_nil_stuck.
  - intros w1 w p R P E. rewrite E in R. apply pass_reach_nil in R.
    injection R as -> ->. discriminate.
Qed.

Lemma empty_known_never_completes_witness :
  getKnownAddrs (newCluster []) = []
  /\ pass_reach (newCluster [], pass_init (getKnownAddrs (newCluster [])))
                (newCluster [], pass_init [])
  /\ done_locked (pass_init []) = true
  /\ pass_act MainWait (newCluster [], pass_init []) = None.
Proof.
  split; [reflexivity|]. split; [apply reach_here|].
  destruct (proj1 (proj2 (empty_known_never_completes (newCluster [])))
              eq_refl (newCluster []) (newCluster []) (pass_init [])
              (reach_here _)) as (_ & _ & D & _ & S).
  split; [exact D|exact (S MainWait)].
Defined.

(** ** The known addresses *)

Lemma seen_In a l : existsb (String.eqb a) l = true <-> In a l.
Proof.
  rewrite existsb_exists. split.
  - intros (x & I & E). apply String.eqb_eq in E. now subst.
  - intros I. exists a. split; [assumption|apply String.eqb_refl].
Qed.

Lemma add_tracks acc a :
  tracks acc ->
  tracks (add acc a)
  /\ forall x, In x (snd (add acc a)) <-> In x (snd acc) \/ x = a.
Proof.
  destruct acc as [sn kn]. unfold tracks, add. simpl. intros [N M].
  destruct (existsb (String.eqb a) sn) eqn:E; simpl.
  - apply seen_In in E. split; [auto|].
    intros x. split; [auto|]. intros [I| ->]; [assumption|now apply M].
  - assert (Out : ~ In a kn).
    { intros I. apply M, seen_In in I. congruence. }
    split; [split|].
    + apply NoDup_app; [assumption|repeat constructor; auto|].
      intros x I [<-|[]]. contradiction.
    + intros x. rewrite in_app_iff. simpl. rewrite (M x). intuition.
    + intros x. rewrite in_app_iff. simpl. intuition.
Qed.

Lemma fold_add_tracks l : forall acc,
  tracks acc ->
  tracks (fold_left add l acc)
  /\ forall x, In x (snd (fold_left add l acc)) <-> In x (snd acc) \/ In x l.
Proof.
  induction l as [|a l IH]; intros acc T; simpl.
  - split; [assumption|]. intros x. tauto.
  - destruct (add_tracks acc a T) as [T' M'].
    destruct (IH _ T') as [T'' M'']. split; [assumption|].
    intros x. rewrite M'', M'. intuition.
Qed.

Lemma fold_add_length l : forall acc,
  List.length (snd (fold_left add l acc))
  <= List.length (snd acc) + List.length l.
Proof.
  induction l as [|a l IH]; intros acc; simpl; [lia|].
  specialize (IH (add acc a)).
  assert (List.length (snd (add acc a)) <= S (List.length (snd acc))).
  { destruct acc as [sn kn]. unfold add.
    destruct (existsb (String.eqb a) sn); simpl; [lia|].
    rewrite length_app. simpl. lia. }
  lia.
Qed.

Lemma fold_add_fresh l : forall acc,
  tracks acc -> NoDup l -> (forall x, In x l -> ~ In x (snd acc)) ->
  snd (fold_left add l acc) = snd acc ++ l.
Proof.
  induction l as [|a l IH]; intros acc T N F; simpl.
  - now rewrite app_nil_r.
  - inversion N as [|? ? Na Nl]; subst.
    destruct (add_tracks acc a T) as [T' M'].
    assert (E : snd (add acc a) = snd acc ++ [a]).
    { destruct acc as [sn kn]. unfold add.
      destruct (existsb (String.eqb a) sn) eqn:E; [|reflexivity].
      exfalso. apply seen_In in E. apply (F a); [left; reflexivity|].
      now apply T. }
    rewrite IH; [rewrite E, <- app_assoc; reflexivity|assumption|assumption|].
    intros x I J. apply M' in J as [J| ->].
    + apply (F x); [right|]; assumption.
    + contradiction.
Qed.

Lemma tracks_nil : tracks ([], []).
Proof. split; [constructor|]. intros a. tauto. Qed.

Lemma getKnownAddrs_In w a :
  In a (getKnownAddrs w)
  <-> In a (userSeeds (cluster w)) \/ In a (dynaSeeds (cluster w))
      \/ exists serv, In serv (servers (cluster w)) /\ Addr (mem w serv) = a.
Proof.
  unfold getKnownAddrs, Servers.Slice. cbv zeta.
  destruct (fold_add_tracks (userSeeds (cluster w)) _ tracks_nil) as [T1 M1].
  destruct (fold_add_tracks (dynaSeeds (cluster w)) _ T1) as [T2 M2].
  destruct (fold_add_tracks
              (map (fun serv => Addr (mem w serv)) (servers (cluster w)))
              _ T2) as [T3 M3].
  rewrite M3, M2, M1, in_map_iff. simpl.
  split; [intros [[[[]|U]|D]|(x & E & I)]|intros [U|[D|(x & I & E)]]];
    eauto 6.
Qed.

(** X1: getKnownAddrs lists every user seed, every dynamic seed and the
    address of every server, lists nothing else, and lists no address
    twice. *)
Theorem getKnownAddrs_members w :
  NoDup (getKnownAddrs w)
  /\ forall a,
       In a (getKnownAddrs w)
       <-> In a (userSeeds (cluster w)) \/ In a (dynaSeeds (cluster w))
           \/ exists serv, In serv (servers (cluster w))
                           /\ Addr (mem w serv) = a.
Proof.
  split; [|intros a; apply getKnownAddrs_In].
  unfold getKnownAddrs, Servers.Slice. cbv zeta.
  destruct (fold_add_tracks (userSeeds (cluster w)) _ tracks_nil) as [T1 _].
  destruct (fold_add_tracks (dynaSeeds (cluster w)) _ T1) as [T2 _].
  destruct (fold_add_tracks
              (map (fun serv => Addr (mem w serv)) (servers (cluster w)))
              _ T2) as [[N _] _].
  exact N.
Qed.

(** X2: getKnownAddrs never returns more addresses than the capacity it
    allocates on line 203. *)
Theorem getKnownAddrs_capacity w :
  (Z.of_nat (List.length (getKnownAddrs w))
   <= Z.of_nat (List.length (userSeeds (cluster w)))
      + Z.of_nat (List.length (dynaSeeds (cluster w)))
      + Servers.Len (servers (cluster w)))%Z.
Proof.
  unfold getKnownAddrs, Servers.Slice, Servers.Len. cbv zeta.
  pose proof (fold_add_length (userSeeds (cluster w)) ([], [])) as L1.
  pose proof (fold_add_length (dynaSeeds (cluster w))
                (fold_left add (userSeeds (cluster w)) ([], []))) as L2.
  pose proof (fold_add_length
                (map (fun serv => Addr (mem w serv)) (servers (cluster w)))
                (fold_left add (dynaSeeds (cluster w))
                   (fold_left add (userSeeds (cluster w)) ([], [])))) as L3.
  rewrite length_map in L3. simpl in L1. lia.
Qed.

(** X3: user seeds that are pairwise different come first in the known
    addresses, in the order the user gave them. *)
Theorem getKnownAddrs_user_first w :
  NoDup (userSeeds (cluster w)) ->
  exists rest, getKnownAddrs w = userSeeds (cluster w) ++ rest
               /\ forall a, In a rest -> ~ In a (userSeeds (cluster w)).
Proof.
  intros N. unfold getKnownAddrs, Servers.Slice. cbv zeta.
  pose proof (fold_add_fresh (userSeeds (cluster w)) ([], []) tracks_nil N
                (fun _ _ F => F)) as E1. simpl in E1.
  destruct (fold_add_tracks (userSeeds (cluster w)) _ tracks_nil) as [T1 M1].
  destruct (fold_add_tracks (dynaSeeds (cluster w)) _ T1) as [T2 M2].
  destruct (fold_add_tracks
              (map (fun serv => Addr (mem w serv)) (servers (cluster w)))
              _ T2) as [[N3 _] _].
  assert (P : forall l acc, exists rest,
             snd (fold_left add l acc) = snd acc ++ rest).
  { induction l as [|a l IH]; intros acc; simpl.
    - exists []. now rewrite app_nil_r.
    - destruct (IH (add acc a)) as [r ->].
      destruct acc as [sn kn]. unfold add.
      destruct (existsb (String.eqb a) sn); simpl.
      + now exists r.
      + exists (a :: r). now rewrite <- app_assoc. }
  destruct (P (dynaSeeds (cluster w))
              (fold_left add (userSeeds (cluster w)) ([], []))) as [r2 E2].
  destruct (P (map (fun serv => Addr (mem w serv)) (servers (cluster w)))
              (fold_left add (dynaSeeds (cluster w))
                 (fold_left add (userSeeds (cluster w)) ([], []))))
    as [r3 E3].
  rewrite E3, E2, E1 in N3. rewrite E3, E2, E1, <- app_assoc.
  exists (r2 ++ r3). split; [reflexivity|].
  intros a I J. rewrite <- app_assoc in N3. revert N3 I J. generalize (r2 ++ r3) as r.
  generalize (userSeeds (cluster w)) as u. clear.
  induction u as [|x u IH]; intros r N I J; [destruct J|].
  simpl in N. inversion N as [|? ? Nx Nu]; subst.
  destruct J as [->|J].
  - apply Nx, in_or_app. now right.
  - exact (IH r Nu I J).
Qed.

Lemma getKnownAddrs_user_first_witness :
  NoDup (userSeeds (cluster (mergeServer demote_example 1)))
  /\ exists rest,
       getKnownAddrs (mergeServer demote_example 1)
       = userSeeds (cluster (mergeServer demote_example 1)) ++ rest
       /\ forall a,
            In a rest
            -> ~ In a (userSeeds (cluster (mergeServer demote_example 1))).
Proof.
  assert (N : NoDup (userSeeds (cluster (mergeServer demote_example 1)))).
  { vm_compute. constructor; [intros []|constructor]. }
  split; [exact N|]. apply getKnownAddrs_user_first. exact N.
Defined.

(** ** Removing more than once *)

(** Which sets still hold the address after one removeServer. *)
Lemma removeServer_profile w server :
  let h := mem w in
  let c := cluster w in
  let c' := cluster (removeServer w server) in
  has_addr h (servers c') server = false
  /\ has_addr h (masters c') server
     = has_addr h (servers c) server && has_addr h (masters c) server
  /\ has_addr h (slaves c') server
     = (has_addr h (servers c) server || has_addr h (masters c) server)
       && has_addr h (slaves c) server.
Proof.
  cbv zeta.
  pose proof (has_addr_Remove (mem w) (servers (cluster w)) server) as G1.
  pose proof (has_addr_Remove (mem w) (masters (cluster w)) server) as G2.
  pose proof (has_addr_Remove (mem w) (slaves (cluster w)) server) as G3.
  pose proof (Remove_reports (mem w) (servers (cluster w)) server) as P1.
  pose proof (Remove_reports (mem w) (masters (cluster w)) server) as P2.
  pose proof (Remove_reports (mem w) (slaves (cluster w)) server) as P3.
  unfold removeServer.
  destruct (Servers.Remove (mem w) (servers (cluster w)) server)
    as [servers1 removed1].
  destruct (Servers.Remove (mem w) (masters (cluster w)) server)
    as [masters1 removed2].
  destruct (Servers.Remove (mem w) (slaves (cluster w)) server)
    as [slaves1 removed3].
  simpl in *. rewrite <- P1, <- P2, <- P3.
  destruct removed1, removed2, removed3; simpl; auto.
Qed.

(** X4: three calls of removeServer take an address out of all three
    sets, and in a cluster whose sets are a keyed partition two calls do,
    where one call does not. *)
Theorem removeServer_repeated w server :
  known_to (removeServer (removeServer (removeServer w server) server)
                         server) server = false
  /\ (cluster_inv w ->
      known_to (removeServer (removeServer w server) server) server = false
      /\ (has_addr (mem w) (servers (cluster w)) server = true ->
          known_to (removeServer w server) server = true)).
Proof.
  pose proof (removeServer_profile w server) as A. cbv zeta in A.
  pose proof (removeServer_profile (removeServer w server) server) as B.
  cbv zeta in B. rewrite removeServer_mem in B.
  pose proof (removeServer_profile
                (removeServer (removeServer w server) server) server) as C.
  cbv zeta in C. rewrite !removeServer_mem in C.
  destruct A as (A1 & A2 & A3), B as (B1 & B2 & B3), C as (C1 & C2 & C3).
  split.
  - unfold known_to. rewrite !removeServer_mem, C1, C2, C3, B1, B2, A1.
    reflexivity.
  - intros ((Pu & Pd) & K & _).
    assert (X : has_addr (mem w) (masters (cluster w)) server = true ->
                has_addr (mem w) (slaves (cluster w)) server = true ->
                False).
    { intros M S. apply has_addr_In in M as (p & Ip & Ep).
      apply has_addr_In in S as (q & Iq & Eq).
      assert (p = q)
        by (apply K; [apply Pu; tauto|apply Pu; tauto|congruence]).
      subst q. apply (Pd p). tauto. }
    assert (Y : has_addr (mem w) (servers (cluster w)) server = false ->
                has_addr (mem w) (masters (cluster w)) server = false
                /\ has_addr (mem w) (slaves (cluster w)) server = false).
    { intros Z.
      split;
        match goal with
        | |- ?b = false => destruct b eqn:H; [|reflexivity]
        end;
        apply has_addr_In in H as (p & Ip & Ep);
        assert (T : has_addr (mem w) (servers (cluster w)) server = true)
          by (apply has_addr_In; exists p; split; [apply Pu; tauto|auto]);
        congruence. }
    split.
    + unfold known_to. rewrite !removeServer_mem, B1, B2, B3, A1, A2, A3.
      destruct (has_addr (mem w) (servers (cluster w)) server) eqn:S.
      * destruct (has_addr (mem w) (masters (cluster w)) server) eqn:M;
          destruct (has_addr (mem w) (slaves (cluster w)) server) eqn:L;
          simpl; try reflexivity.
        destruct (X eq_refl eq_refl).
      * destruct (Y eq_refl) as [-> ->]. reflexivity.
    + intros S. unfold known_to. rewrite !removeServer_mem, A1, A2, A3, S.
      simpl. apply has_addr_In in S as (p & Ip & Ep).
      destruct (proj1 (Pu p) Ip) as [I|I].
      * assert (T : has_addr (mem w) (masters (cluster w)) server = true)
          by (apply has_addr_In; eauto).
        rewrite T. reflexivity.
      * assert (T : has_addr (mem w) (slaves (cluster w)) server = true)
          by (apply has_addr_In; eauto).
        rewrite T. apply Bool.orb_true_r.
Qed.

Lemma removeServer_repeated_witness :
  cluster_inv demote_example
  /\ has_addr (mem demote_example) (servers (cluster demote_example)) 0 = true
  /\ known_to (removeServer demote_example 0) 0 = true
  /\ known_to (removeServer (removeServer demote_example 0) 0) 0 = false.
Proof.
  split; [exact demote_example_inv|]. split; [reflexivity|].
  destruct (proj2 (removeServer_repeated demote_example 0)
              demote_example_inv) as [T O].
  split; [exact (O eq_refl)|exact T].
Defined.

(** ** What a merge leaves behind *)

Lemma mergeServer_trace w server :
  exists evs, trace (mergeServer w server) = trace w ++ evs ++ [EvBroadcast].
Proof.
  unfold mergeServer. cbv zeta.
  destruct (Servers.Search (mem w) (servers (cluster w)) server)
    as [previous|].
  - destruct (negb (Bool.eqb (Master (mem w server))
                             (Master (mem w previous)))).
    + destruct (Master (mem w previous)); simpl; eexists;
        rewrite <- app_assoc; reflexivity.
    + exists []. reflexivity.
  - destruct (Master (mem w server)); simpl; eexists;
      rewrite <- app_assoc; reflexivity.
Qed.

Lemma mergeServer_next w server : next (mergeServer w server) = next w.
Proof.
  unfold mergeServer. cbv zeta.
  destruct (Servers.Search (mem w) (servers (cluster w)) server)
    as [previous|].
  - destruct (negb (Bool.eqb (Master (mem w server))
                             (Master (mem w previous))));
      [destruct (Master (mem w previous))|]; reflexivity.
  - destruct (Master (mem w server)); reflexivity.
Qed.

(** X5: whatever path a merge takes, it drops no handle from the server
    set, changes no address, leaves the server set with a handle for the
    candidate's address that carries the candidate's role, and ends by
    waking the waiters. *)
Theorem mergeServer_outcome w server :
  (forall p, In p (servers (cluster w)) ->
             In p (servers (cluster (mergeServer w server))))
  /\ (forall p, Addr (mem (mergeServer w server) p) = Addr (mem w p))
  /\ (exists q,
        Servers.Search (mem (mergeServer w server))
                       (servers (cluster (mergeServer w server))) server
        = Some q
        /\ Master (mem (mergeServer w server) q) = Master (mem w server))
  /\ exists evs, trace (mergeServer w server) = trace w ++ evs ++ [EvBroadcast].
Proof.
  pose proof (mergeServer_sets w server) as H. cbv zeta in H.
  destruct (Servers.Search (mem w) (servers (cluster w)) server)
    as [previous|] eqn:S; destruct H as (Hm & Hs & _).
  - rewrite Hm, Hs. split; [auto|]. split; [|split].
    + intros p. unfold Merge. apply Addr_SetMaster.
    + exists previous. unfold Merge.
      rewrite Search_SetMaster, Master_SetMaster, Nat.eqb_refl. auto.
    + apply mergeServer_trace.
  - rewrite Hm, Hs. split; [|split; [reflexivity|split]].
    + intros p I. apply In_Add. now left.
    + exists server. split; [|reflexivity].
      now apply Search_Add_fresh.
    + apply mergeServer_trace.
Qed.

(** ** Histories without a removal *)

Lemma inv_transfer w w' :
  cluster_inv w ->
  servers (cluster w') = servers (cluster w) ->
  masters (cluster w') = masters (cluster w) ->
  slaves (cluster w') = slaves (cluster w) ->
  (forall p, In p (servers (cluster w)) -> mem w' p = mem w p) ->
  cluster_inv w'.
Proof.
  intros ((Pu & Pd) & K & Ra & Rs) Es Em El A.
  unfold cluster_inv, partition, keyed, roles_agree.
  rewrite Es, Em, El. split; [split; assumption|]. split; [|split].
  - intros p q Ip Iq. rewrite (A p Ip), (A q Iq). now apply K.
  - intros p I. rewrite A; [auto|]. apply Pu. tauto.
  - intros p I. rewrite A; [auto|]. apply Pu. tauto.
Qed.

Lemma close_all_next l : forall w, next (close_all w l) = next w.
Proof.
  unfold close_all. induction l as [|x l IH]; intros w; simpl;
    [reflexivity|].
  now rewrite IH.
Qed.

Lemma Release_next w w' : Release w = Some w' -> next w' = next w.
Proof.
  unfold Release.
  destruct (references (cluster w) =? 0)%Z; [discriminate|]. cbv zeta.
  destruct (GoInt.int_wrap (references (cluster w) - 1) =? 0)%Z;
    intros E; injection E as <-; rewrite ?close_all_next; reflexivity.
Qed.

Lemma syncServers_complete_next w w' restart :
  syncServers_complete w = Some (w', restart) -> next w' = next w.
Proof.
  unfold syncServers_complete.
  assert (N : next (fst (finishPass w)) = next w).
  { unfold finishPass. cbv zeta. simpl.
    destruct (Servers.Empty (servers (cluster w)));
      destruct (Servers.Len (masters (cluster w)) =? 0)%Z; reflexivity. }
  destruct (finishPass w) as [w1 r]. simpl in N.
  destruct (Release w1) as [w2|] eqn:R; [|discriminate].
  intros E. injection E as <- <-. apply Release_next in R.
  destruct r; simpl; congruence.
Qed.

Lemma same_sets_allocated w w' :
  same_sets w w' -> next w' = next w -> allocated w -> allocated w'.
Proof.
  unfold allocated. intros (_ & Es & _) N A p. rewrite Es, N. apply A.
Qed.

(** An answered probe of a fresh handle keeps the sets a keyed partition
    of allocated handles. *)
Lemma answered_probe_inv w addr resolved result :
  cluster_inv w -> allocated w ->
  cluster_inv (fst (syncServer (fst (newServer w addr resolved)) (next w)
                               (Answered result)))
  /\ allocated (fst (syncServer (fst (newServer w addr resolved)) (next w)
                                (Answered result))).
Proof.
  intros I A. unfold syncServer. cbv zeta.
  set (w1 := fst (newServer w addr resolved)).
  set (w0 := log w1 [LS "[sync] Processing "; LS (Addr (mem w1 (next w)));
                     LS "..."]).
  set (w2 := if IsMaster result
             then with_mem
                    (log w0 [LS "[sync] "; LS (Addr (mem w1 (next w)));
                             LS " is a master."])
                    (SetMaster
                       (mem (log w0 [LS "[sync] ";
                                     LS (Addr (mem w1 (next w)));
                                     LS " is a master."]))
                       (next w) true)
             else if Secondary result
             then log w0 [LS "[sync] "; LS (Addr (mem w1 (next w)));
                          LS " is a slave."]
             else log w0 [LS "[sync] "; LS (Addr (mem w1 (next w)));
                          LS " is neither a master nor a slave."]).
  assert (Sets : servers (cluster w2) = servers (cluster w)
                 /\ masters (cluster w2) = masters (cluster w)
                 /\ slaves (cluster w2) = slaves (cluster w)
                 /\ next w2 = S (next w)).
  { unfold w2. destruct (IsMaster result); [|destruct (Secondary result)];
      simpl; auto. }
  destruct Sets as (Es & Em & El & En).
  assert (Mem : forall p, In p (servers (cluster w)) -> mem w2 p = mem w p).
  { intros p Ip. apply A in Ip.
    assert (P : Nat.eqb p (next w) = false) by (apply Nat.eqb_neq; lia).
    unfold w2. destruct (IsMaster result); [|destruct (Secondary result)];
      simpl; unfold SetMaster, store; simpl; rewrite ?P; reflexivity. }
  simpl. fold w1. fold w0. fold w2. split.
  - apply mergeServer_inv. exact (inv_transfer w w2 I Es Em El Mem).
  - intros p Ip. rewrite mergeServer_next, En.
    pose proof (mergeServer_sets w2 (next w)) as H. cbv zeta in H.
    destruct (Servers.Search (mem w2) (servers (cluster w2)) (next w));
      destruct H as (_ & Hs & _); rewrite Hs, ?Es in Ip.
    + apply A in Ip. lia.
    + apply In_Add in Ip as [Ip| ->]; [apply A in Ip|]; lia.
Qed.

Lemma peaceful_step o w w' :
  peaceful o = true -> apply_op o w = Some w' ->
  cluster_inv w /\ allocated w -> cluster_inv w' /\ allocated w'.
Proof.
  intros P E [I A]. destruct o as [addr resolved pr|s|s| | | | ];
    try discriminate P; simpl in E.
  - destruct pr as [err|err|result]; try discriminate P.
    injection E as <-. now apply answered_probe_inv.
  - injection E as <-. split.
    + exact (same_sets_inv _ _ (Acquire_sets w) I).
    + exact (same_sets_allocated _ _ (Acquire_sets w) eq_refl A).
  - split.
    + exact (same_sets_inv _ _ (Release_sets _ _ E) I).
    + exact (same_sets_allocated _ _ (Release_sets _ _ E)
                                 (Release_next _ _ E) A).
  - pose proof (syncServers_guard_sets _ _ E) as S. split.
    + exact (same_sets_inv _ _ S I).
    + apply (same_sets_allocated _ _ S); [|assumption].
      unfold syncServers_guard in E. cbv zeta in E.
      destruct (syncing (cluster w) || (references (cluster w) =? 0)%Z);
        [discriminate|].
      injection E as <-. reflexivity.
  - destruct (syncServers_complete w) as [[w2 r]|] eqn:C; [|discriminate].
    injection E as <-. split.
    + exact (same_sets_inv _ _ (syncServers_complete_sets _ _ _ C) I).
    + exact (same_sets_allocated _ _ (syncServers_complete_sets _ _ _ C)
                                 (syncServers_complete_next _ _ _ C) A).
Qed.

Lemma peaceful_run ops : forall w w',
  forallb peaceful ops = true -> run ops w = Some w' ->
  cluster_inv w /\ allocated w -> cluster_inv w' /\ allocated w'.
Proof.
  induction ops as [|o ops IH]; intros w w' P E H; simpl in *.
  - injection E as <-. exact H.
  - apply Bool.andb_true_iff in P as [Po Ps].
    destruct (apply_op o w) as [w1|] eqn:A; [|discriminate].
    exact (IH _ _ Ps E (peaceful_step _ _ _ Po A H)).
Qed.

(** X6: a history of answered probes, Acquire, Release and pass
    bookkeeping, with no removeServer in it, leaves masters and slaves a
    partition of the server set, one handle per address, each on the side
    its role flag names. *)
Theorem peaceful_history_inv seeds ops w :
  forallb peaceful ops = true ->
  run ops (newCluster seeds) = Some w ->
  cluster_inv w.
Proof.
  intros P E.
  apply (peaceful_run ops (newCluster seeds) w P E).
  split; [apply newCluster_inv|]. intros p [].
Qed.

Lemma peaceful_history_inv_witness :
  exists w,
    forallb peaceful [OpProbe "A" "A" (Answered master_answer); OpAcquire;
                      OpProbe "B" "B" (Answered slave_answer); OpRelease]
    = true
    /\ run [OpProbe "A" "A" (Answered master_answer); OpAcquire;
            OpProbe "B" "B" (Answered slave_answer); OpRelease]
           (newCluster ["A"%string]) = Some w
    /\ cluster_inv w.
Proof.
  eexists. split; [reflexivity|]. split; [reflexivity|].
  apply (peaceful_history_inv
           ["A"%string]
           [OpProbe "A" "A" (Answered master_answer); OpAcquire;
            OpProbe "B" "B" (Answered slave_answer); OpRelease]);
    reflexivity.
Defined.

Lemma removeServer_inv_witness :
  cluster_inv demote_example
  /\ has_addr (mem demote_example) (servers (cluster demote_example)) 0 = true
  /\ ~ cluster_inv (removeServer demote_example 0).
Proof.
  split; [exact demote_example_inv|]. split; [reflexivity|].
  intros I.
  apply (removeServer_inv demote_example 0 demote_example_inv) in I.
  discriminate I.
Defined.

(** ** Seeds that outlive their servers *)

Lemma removeServer_seeds w server :
  userSeeds (cluster (removeServer w server)) = userSeeds (cluster w)
  /\ dynaSeeds (cluster (removeServer w server)) = dynaSeeds (cluster w).
Proof.
  unfold removeServer, Servers.Remove.
  repeat match goal with
         | |- context [if ?b then _ else _] => destruct b
         end; split; reflexivity.
Qed.

Lemma removals_seeds l : forall w,
  dynaSeeds (cluster (fold_left removeServer l w)) = dynaSeeds (cluster w).
Proof.
  induction l as [|x l IH]; intros w; simpl; [reflexivity|].
  rewrite IH. apply removeServer_seeds.
Qed.

(** X8: an address that a server carries when a pass ends stays among the
    known addresses however many servers are removed afterwards. *)
Theorem finishPass_remembers w a removed :
  (exists serv, In serv (servers (cluster w)) /\ Addr (mem w serv) = a) ->
  In a (getKnownAddrs (fold_left removeServer removed (fst (finishPass w)))).
Proof.
  intros (serv & I & E). apply getKnownAddrs_In. right. left.
  rewrite removals_seeds.
  assert (D : dynaSeeds (cluster (fst (finishPass w)))
              = map (fun server => Addr (mem w server))
                    (servers (cluster w))).
  { unfold finishPass, Servers.Slice. cbv zeta. simpl.
    destruct (servers (cluster w)) as [|x l]; [destruct I|]. simpl.
    destruct (Servers.Len (masters (cluster w)) =? 0)%Z; reflexivity. }
  rewrite D. apply in_map_iff. exists serv. auto.
Qed.

Lemma finishPass_remembers_witness :
  (exists serv, In serv (servers (cluster demote_example))
                /\ Addr (mem demote_example serv) = "A"%string)
  /\ servers (cluster (fold_left removeServer [0; 0; 0]
                                 (fst (finishPass demote_example)))) = []
  /\ In "A"%string
        (getKnownAddrs (fold_left removeServer [0; 0; 0]
                                  (fst (finishPass demote_example)))).
Proof.
  assert (H : exists serv, In serv (servers (cluster demote_example))
                           /\ Addr (mem demote_example serv) = "A"%string)
    by (exists 0; split; [left|]; reflexivity).
  split; [exact H|]. split; [reflexivity|].
  exact (finishPass_remembers demote_example "A" [0; 0; 0] H).
Defined.

(** ** References *)

Lemma Release_Acquire w :
  (0 < references (cluster w) < 2 ^ 31 - 1)%Z -> Release (Acquire w) = Some w.
Proof.
  intros R. unfold Release, Acquire. simpl.
  rewrite (int_wrap_small (references (cluster w) + 1))
    by (unfold GoInt.in_int; lia).
  destruct (Z.eqb_spec (references (cluster w) + 1) 0) as [E|_]; [lia|].
  replace (references (cluster w) + 1 - 1)%Z with (references (cluster w))
    by lia.
  rewrite (int_wrap_small (references (cluster w)))
    by (unfold GoInt.in_int; lia).
  destruct (Z.eqb_spec (references (cluster w)) 0) as [E|_]; [lia|].
  destruct w as [m c t n]. destruct c. reflexivity.
Qed.

Lemma Acquire_n_references n : forall w,
  (0 < references (cluster w))%Z ->
  (references (cluster w) + Z.of_nat n < 2 ^ 31)%Z ->
  references (cluster (Nat.iter n Acquire w))
  = (references (cluster w) + Z.of_nat n)%Z.
Proof.
  induction n as [|n IH]; intros w P B; simpl Nat.iter.
  - simpl. lia.
  - unfold Acquire at 1. simpl references. rewrite IH by lia.
    rewrite int_wrap_small by (unfold GoInt.in_int; lia). lia.
Qed.

(** X9: while the count stays in range, as many Releases as Acquires
    before them give back the very world the Acquires started from: no
    server is closed and nothing panics. *)
Theorem Acquire_Release_round_trip n w :
  (0 < references (cluster w))%Z ->
  (references (cluster w) + Z.of_nat n < 2 ^ 31)%Z ->
  Release_n n (Nat.iter n Acquire w) = Some w.
Proof.
  revert w. induction n as [|n IH]; intros w P B; simpl Nat.iter;
    [reflexivity|].
  simpl Release_n. rewrite Release_Acquire.
  - apply IH; lia.
  - rewrite Acquire_n_references by lia. lia.
Qed.

Lemma Acquire_Release_round_trip_witness :
  (0 < references (cluster demote_example))%Z
  /\ (references (cluster demote_example) + Z.of_nat 3 < 2 ^ 31)%Z
  /\ Release_n 3 (Nat.iter 3 Acquire demote_example) = Some demote_example.
Proof.
  assert (P : (0 < references (cluster demote_example))%Z) by reflexivity.
  assert (B : (references (cluster demote_example) + Z.of_nat 3 < 2 ^ 31)%Z)
    by reflexivity.
  split; [exact P|]. split; [exact B|].
  exact (Acquire_Release_round_trip 3 demote_example P B).
Defined.

(** ** The reference a pass holds *)

Lemma Len_zero l : (Servers.Len l =? 0)%Z = Servers.Empty l.
Proof. destruct l; reflexivity. Qed.

Lemma finishPass_fields w :
  references (cluster (fst (finishPass w))) = references (cluster w)
  /\ syncing (cluster (fst (finishPass w))) = false
  /\ userSeeds (cluster (fst (finishPass w))) = userSeeds (cluster w)
  /\ snd (finishPass w) = Servers.Empty (masters (cluster w))
  /\ (forall p, In (EvClose p) (trace (fst (finishPass w))) ->
                In (EvClose p) (trace w)).
Proof.
  unfold finishPass. cbv zeta. simpl. rewrite Len_zero.
  destruct (Servers.Empty (servers (cluster w)));
    destruct (Servers.Empty (masters (cluster w))); simpl;
    repeat split; intros p I;
    repeat (apply in_app_or in I as [I|[I|[]]]; [|discriminate I]);
    assumption.
Qed.

(** X10: a pass that got through the guard shuts the guard for every
    other pass until it ends; when it ends, whatever happened to the sets
    meanwhile, it clears the syncing flag, gives back the reference it
    took, closes no server, and asks for a restart exactly when there is
    no master. *)
Theorem pass_bookkeeping w w1 v :
  syncServers_guard w = Some w1 ->
  (0 < references (cluster w) < 2 ^ 31 - 1)%Z ->
  references (cluster v) = references (cluster w1) ->
  syncServers_guard w1 = None
  /\ exists v',
       syncServers_complete v
       = Some (v', Servers.Empty (masters (cluster v)))
       /\ references (cluster v') = references (cluster w)
       /\ syncing (cluster v') = false
       /\ forall p, In (EvClose p) (trace v') -> In (EvClose p) (trace v).
Proof.
  intros G R Ev. unfold syncServers_guard in G. cbv zeta in G.
  destruct (syncing (cluster w) || (references (cluster w) =? 0)%Z);
    [discriminate|].
  injection G as <-. simpl in Ev. split; [reflexivity|].
  rewrite int_wrap_small in Ev by (unfold GoInt.in_int; lia).
  destruct (finishPass_fields v) as (Fr & Fs & _ & Fm & Fc).
  unfold syncServers_complete.
  destruct (finishPass v) as [v1 r]. simpl in Fr, Fs, Fm, Fc. subst r.
  assert (N : references (cluster v1) <> 0%Z) by lia.
  destruct (Release_some v1 N) as (v2 & Rl & Rc & _ & _ & Rt).
  rewrite Rl. rewrite Rc, Fr, Ev in Rt.
  replace (references (cluster w) + 1 - 1)%Z with (references (cluster w))
    in * by lia.
  rewrite int_wrap_small in Rt, Rc by (unfold GoInt.in_int; lia).
  destruct (Z.eqb_spec (references (cluster w)) 0) as [E|_]; [lia|].
  rewrite app_nil_r in Rt.
  assert (S2 : syncing (cluster v2) = false).
  { pose proof Rl as Rl'. unfold Release in Rl'.
    destruct (references (cluster v1) =? 0)%Z; [discriminate|].
    cbv zeta in Rl'.
    destruct (GoInt.int_wrap (references (cluster v1) - 1) =? 0)%Z;
      injection Rl' as <-.
    - match goal with
      | |- context [close_all ?x ?l] =>
          destruct (close_all_trace l x) as (_ & C & _)
      end.
      rewrite C. exact Fs.
    - exact Fs. }
  eexists. split; [reflexivity|].
  destruct (Servers.Empty (masters (cluster v))); simpl;
    (split; [rewrite Rc, Fr, Ev; lia|]); (split; [exact S2|]);
    intros p I; rewrite ?Rt in I.
  - apply in_app_or in I as [I|[I|[]]]; [|discriminate I]. auto.
  - auto.
Qed.

Lemma pass_bookkeeping_witness :
  exists w1 v',
    syncServers_guard demote_example = Some w1
    /\ (0 < references (cluster demote_example) < 2 ^ 31 - 1)%Z
    /\ syncServers_guard w1 = None
    /\ syncServers_complete (mergeServer w1 1)
       = Some (v', Servers.Empty (masters (cluster (mergeServer w1 1))))
    /\ references (cluster v') = references (cluster demote_example).
Proof.
  eexists. 
  assert (G : syncServers_guard demote_example
              = Some (with_cluster demote_example
                        (set_syncing
                           (set_references (cluster demote_example) 2)
                           true)))
    by reflexivity.
  assert (R : (0 < references (cluster demote_example) < 2 ^ 31 - 1)%Z)
    by (split; reflexivity).
  destruct (pass_bookkeeping _ _
              (mergeServer (with_cluster demote_example
                              (set_syncing
                                 (set_references (cluster demote_example) 2)
                                 true)) 1)
              G R eq_refl) as (N & v' & C & Rf & _).
  exists v'. split; [exact G|]. split; [exact R|]. split; [exact N|].
  split; [exact C|exact Rf].
Defined.

(** X11: a pass that ends while it holds the last reference closes every
    server of the cluster, and neither the restart it may have asked for
    nor any later pass gets through the guard. *)
Theorem pass_last_reference v :
  references (cluster v) = 1%Z ->
  exists v',
    syncServers_complete v = Some (v', Servers.Empty (masters (cluster v)))
    /\ references (cluster v') = 0%Z
    /\ (forall p, In p (servers (cluster v)) -> In (EvClose p) (trace v'))
    /\ syncServers_guard v' = None.
Proof.
  intros R.
  destruct (finishPass_fields v) as (Fr & _ & _ & Fm & _).
  pose proof (finishPass_sets v) as (_ & Fs & _).
  unfold syncServers_complete.
  destruct (finishPass v) as [v1 r]. simpl in Fr, Fm, Fs. subst r.
  assert (N : references (cluster v1) <> 0%Z) by lia.
  destruct (Release_some v1 N) as (v2 & Rl & Rc & _ & _ & Rt).
  rewrite Rl. rewrite Fr, R in Rc. change (GoInt.int_wrap (1 - 1)) with 0%Z
    in Rc.
  rewrite Rc in Rt. simpl in Rt. rewrite Fs in Rt.
  assert (G : forall x, references (cluster x) = 0%Z ->
                        syncServers_guard x = None).
  { intros x E. unfold syncServers_guard. cbv zeta. rewrite E.
    now rewrite Bool.orb_true_r. }
  eexists. split; [reflexivity|].
  destruct (Servers.Empty (masters (cluster v))); simpl;
    (split; [exact Rc|]); (split; [|apply G; exact Rc]);
    intros p I; rewrite ?Rt.
  - apply in_or_app. left. apply in_or_app. right.
    apply in_map. exact I.
  - apply in_or_app. right. apply in_map. exact I.
Qed.

Lemma pass_last_reference_witness :
  references (cluster demote_example) = 1%Z
  /\ exists v',
       syncServers_complete demote_example = Some (v', false)
       /\ In (EvClose 0) (trace v')
       /\ syncServers_guard v' = None.
Proof.
  split; [reflexivity|].
  destruct (pass_last_reference demote_example eq_refl)
    as (v' & C & _ & Cl & G).
  exists v'. split; [exact C|]. split; [|exact G].
  apply Cl. left. reflexivity.
Defined.

(** ** One probe *)

Lemma mergeServer_candidate_role w server :
  Master (mem (mergeServer w server) server) = Master (mem w server).
Proof.
  pose proof (mergeServer_sets w server) as H. cbv zeta in H.
  destruct (Servers.Search (mem w) (servers (cluster w)) server)
    as [previous|]; destruct H as (-> & _); [|reflexivity].
  unfold Merge. rewrite Master_SetMaster.
  destruct (Nat.eqb server previous); reflexivity.
Qed.

(** X12: a probe that gets no socket or no answer returns the error, and
    afterwards the server set holds no handle for the probed address,
    also when the handle it held was another one. *)
Theorem syncServer_failure w server err :
  (snd (syncServer w server (SocketFailed err)) = None
   /\ has_addr (mem w)
        (servers (cluster (fst (syncServer w server (SocketFailed err)))))
        server = false)
  /\ (snd (syncServer w server (CommandFailed err)) = None
      /\ has_addr (mem w)
           (servers (cluster (fst (syncServer w server (CommandFailed err)))))
           server = false).
Proof.
  unfold syncServer. cbv zeta. simpl.
  split; (split; [reflexivity|]);
    match goal with
    | |- has_addr _ (servers (cluster (removeServer ?x _))) _ = _ =>
        exact (removeServer_clears x server)
    end.
Qed.

(** X13: an answered probe returns the primary, when one is named, ahead
    of the hosts and the passives and returns nothing else; afterwards the
    server set has a handle for the probed address, and that handle is a
    master exactly when the answer said so or the probed handle already
    was one. *)
Theorem syncServer_answered w server result :
  let w' := fst (syncServer w server (Answered result)) in
  (exists hosts,
     snd (syncServer w server (Answered result)) = Some hosts
     /\ (forall a, In a hosts
                   <-> (a = Primary result /\ a <> EmptyString)
                       \/ In a (Hosts result) \/ In a (Passives result))
     /\ (Primary result <> EmptyString -> hd_error hosts = Some (Primary result)))
  /\ exists q,
       Servers.Search (mem w') (servers (cluster w')) server = Some q
       /\ Master (mem w' q) = IsMaster result || Master (mem w server).
Proof.
  cbv zeta. unfold syncServer. cbv zeta. split.
  - eexists. split; [reflexivity|]. split.
    + intros a. rewrite !in_app_iff.
      destruct (String.eqb_spec (Primary result) EmptyString) as [E|N];
        simpl; split.
      * tauto.
      * intros [[-> C]|H]; [congruence|tauto].
      * intros [[<-|[]]|H]; tauto.
      * intros [[-> _]|H]; tauto.
    + intros N.
      destruct (String.eqb_spec (Primary result) EmptyString) as [E|_];
        [contradiction|reflexivity].
  - cbn [fst].
    match goal with
    | |- context [mergeServer ?x server] =>
        destruct (mergeServer_registers x server server eq_refl eq_refl)
          as (q & S & E);
        pose proof (mergeServer_candidate_role x server) as C;
        exists q; split; [exact S|]; rewrite <- E, C
    end.
    destruct (IsMaster result); simpl.
    + rewrite Master_SetMaster, Nat.eqb_refl. reflexivity.
    + destruct (Secondary result); reflexivity.
Qed.

(** ** Sockets *)

Lemma pick_member write c server :
  pick write c = Some server ->
  (write = true -> In server (masters c))
  /\ (write = false ->
      In server (slaves c) \/ (slaves c = [] /\ In server (masters c))).
Proof.
  unfold pick, Servers.Get.
  destruct write; cbn [orb].
  - intros H. apply nth_error_In in H. split; [auto|discriminate].
  - destruct (slaves c) as [|x l]; cbn [Servers.Empty]; intros H;
      apply nth_error_In in H; (split; [discriminate|]); auto.
Qed.

Lemma acquire_iter_returned e write syncTimeout began n w s w' :
  acquire_iter e write syncTimeout began n w = Done (Returned s w') ->
  w' = w /\ eligible write (cluster w) = true
  /\ exists server, pick write (cluster w) = Some server
                    /\ dial e n server = Some s.
Proof.
  unfold acquire_iter.
  destruct (eligible write (cluster w)).
  - destruct (pick write (cluster w)) as [server|]; [|discriminate].
    destruct (dial e n server) as [s0|] eqn:D; [|discriminate].
    intros E. injection E as <- <-. eauto.
  - destruct ((syncTimeout >? 0)%Z
              && (GoInt.int64_wrap (now e n - began) >? syncTimeout)%Z);
      discriminate.
Qed.

(** X14: a socket that AcquireSocket returns was handed out by a server
    that a set of the cluster held at the moment of the choice: a master
    for a write; for a read a slave, or a master when there was no
    slave. *)
Theorem AcquireSocket_returned fuel e write syncTimeout w s w' :
  AcquireSocket fuel e write syncTimeout w = Returned s w' ->
  exists n server,
    dial e n server = Some s
    /\ (write = true -> In server (masters (cluster w')))
    /\ (write = false ->
        In server (slaves (cluster w'))
        \/ (slaves (cluster w') = [] /\ In server (masters (cluster w')))).
Proof.
  unfold AcquireSocket. generalize 1 as n. revert w.
  induction fuel as [|fuel IH]; intros w n; simpl; [discriminate|].
  destruct (acquire_iter e write syncTimeout (now e 0) n w) as [o|v m] eqn:I.
  - intros ->. apply acquire_iter_returned in I
      as (-> & _ & server & P & D).
    exists n, server. split; [exact D|]. exact (pick_member _ _ _ P).
  - apply IH.
Qed.

Lemma AcquireSocket_returned_witness :
  let e := {| now := fun _ => 0%Z; others := fun _ v => v;
              dial := fun _ server => Some (7 + server) |} in
  AcquireSocket 1 e true 0 demote_example = Returned 7 demote_example
  /\ exists n server,
       dial e n server = Some 7
       /\ (true = true -> In server (masters (cluster demote_example)))
       /\ (true = false ->
           In server (slaves (cluster demote_example))
           \/ (slaves (cluster demote_example) = []
               /\ In server (masters (cluster demote_example)))).
Proof.
  cbv zeta. split; [reflexivity|].
  apply (AcquireSocket_returned
           1 {| now := fun _ => 0%Z; others := fun _ v => v;
                dial := fun _ server => Some (7 + server) |}
           true 0 demote_example 7 demote_example).
  reflexivity.
Defined.

Lemma acquire_loop_times_out e write syncTimeout began :
  undisturbed e -> (0 < syncTimeout)%Z ->
  forall d n w fuel,
    eligible write (cluster w) = false ->
    (syncTimeout < GoInt.int64_wrap (now e (n + d) - began))%Z ->
    d < fuel ->
    exists w',
      acquire_loop fuel e write syncTimeout began n w
      = Failed "no reachable servers" w'
      /\ cluster w' = cluster w.
Proof.
  intros U T. induction d as [|d IH]; intros n w fuel L D F;
    (destruct fuel as [|fuel]; [lia|]); simpl; unfold acquire_iter;
    rewrite L; apply Z.gtb_lt in T as T'; rewrite T'; simpl.
  - rewrite Nat.add_0_r in D. apply Z.gtb_lt in D. rewrite D. eauto.
  - destruct (GoInt.int64_wrap (now e n - began) >? syncTimeout)%Z;
      [eauto|].
    destruct (IH (S n)
                 (others e n (log w [LS "Waiting for masters to synchronize."]))
                 fuel) as (w' & E & C).
    + rewrite U. exact L.
    + replace (S n + d) with (n + S d) by lia. exact D.
    + lia.
    + exists w'. split; [exact E|]. rewrite C, U. reflexivity.
Qed.

(** X15: when nobody makes a server eligible and the timeout is positive,
    AcquireSocket fails with "no reachable servers" no later than the
    first wake-up at which the clock has passed the timeout, and leaves
    the cluster as it was. *)
Theorem AcquireSocket_times_out fuel k e write syncTimeout w :
  undisturbed e ->
  eligible write (cluster w) = false ->
  (0 < syncTimeout)%Z ->
  1 <= k <= fuel ->
  (syncTimeout < GoInt.int64_wrap (now e k - now e 0))%Z ->
  exists w',
    AcquireSocket fuel e write syncTimeout w
    = Failed "no reachable servers" w'
    /\ cluster w' = cluster w.
Proof.
  intros U L T K D. unfold AcquireSocket.
  apply (acquire_loop_times_out e write syncTimeout (now e 0) U T (k - 1));
    [exact L| |lia].
  replace (1 + (k - 1)) with k by lia. exact D.
Qed.

Lemma lonely_env_undisturbed : undisturbed lonely_env.
Proof. intros n v. reflexivity. Defined.

Lemma AcquireSocket_times_out_witness :
  undisturbed lonely_env
  /\ eligible true (cluster (newCluster ["A"%string])) = false
  /\ (0 < 25)%Z /\ 1 <= 3 <= 5
  /\ (25 < GoInt.int64_wrap (now lonely_env 3 - now lonely_env 0))%Z
  /\ exists w',
       AcquireSocket 5 lonely_env true 25 (newCluster ["A"%string])
       = Failed "no reachable servers" w'
       /\ cluster w' = cluster (newCluster ["A"%string]).
Proof.
  assert (K : 1 <= 3 <= 5) by lia.
  split; [exact lonely_env_undisturbed|]. split; [reflexivity|].
  split; [reflexivity|]. split; [exact K|]. split; [reflexivity|].
  exact (AcquireSocket_times_out 5 3 lonely_env true 25
           (newCluster ["A"%string]) lonely_env_undisturbed eq_refl eq_refl
           K eq_refl).
Defined.

(** X16: when nobody makes a server eligible and the timeout is zero or
    negative, AcquireSocket is still waiting after any number of
    wake-ups. *)
Theorem AcquireSocket_waits fuel e write syncTimeout w :
  undisturbed e ->
  eligible write (cluster w) = false ->
  (syncTimeout <= 0)%Z ->
  exists w',
    AcquireSocket fuel e write syncTimeout w = Running w'
    /\ cluster w' = cluster w.
Proof.
  intros U L T. unfold AcquireSocket. generalize 1 as n. revert w L.
  induction fuel as [|fuel IH]; intros w L n; simpl; [eauto|].
  unfold acquire_iter. rewrite L.
  destruct (Z.gtb_spec syncTimeout 0) as [G|_]; [lia|]. simpl.
  destruct (IH (others e n (log w [LS "Waiting for masters to synchronize."])))
    with (n := S n) as (w' & E & C).
  - rewrite U. exact L.
  - exists w'. split; [exact E|]. rewrite C, U. reflexivity.
Qed.

Lemma AcquireSocket_waits_witness :
  undisturbed lonely_env
  /\ eligible false (cluster (newCluster ["A"%string])) = false
  /\ (0 <= 0)%Z
  /\ exists w',
       AcquireSocket 9 lonely_env false 0 (newCluster ["A"%string])
       = Running w'
       /\ cluster w' = cluster (newCluster ["A"%string]).
Proof.
  assert (T : (0 <= 0)%Z) by lia.
  split; [exact lonely_env_undisturbed|]. split; [reflexivity|].
  split; [exact T|].
  exact (AcquireSocket_waits 9 lonely_env false 0 (newCluster ["A"%string])
           lonely_env_undisturbed eq_refl T).
Defined.

(** ** One probe for each resolved address *)








(** ** No lost wake-up *)

Lemma replace_nth_nonempty {A} (b' : A) l i b :
  nth_error l i = Some b -> replace_nth i b' l <> [].
Proof.
  intros N E. apply (f_equal (@List.length A)) in E.
  rewrite length_replace_nth in E. destruct l; [destruct i|];
    discriminate.
Qed.

Lemma spawnSync_exact n p addr :
  (n + 1 < 2147483648)%Z -> exact n p ->
  (0 <= finished (spawnSync p addr))%Z
  /\ (started (spawnSync p addr)
      = finished (spawnSync p addr)
        + Z.of_nat (List.length (branches (spawnSync p addr))))%Z
  /\ (started (spawnSync p addr) = started p + 1)%Z
  /\ branches (spawnSync p addr) <> [].
Proof.
  intros B (F & S & L & _). simpl.
  rewrite int_wrap_small
    by (unfold GoInt.in_int; change (2 ^ 31)%Z with 2147483648%Z; lia).
  rewrite length_app. simpl. repeat split; try lia.
  intros E. apply app_eq_nil in E as [_ E]. discriminate.
Qed.

Lemma pass_act_exact a w p w' p' n :
  pass_act a (w, p) = Some (w', p') ->
  (n + 1 < 2147483648)%Z -> exact n p ->
  exact (n + 1) p' /\ known p' = known p.
Proof.
  unfold pass_act. destruct (crashed p); [discriminate|].
  intros E B X. pose proof X as (F & S & L & K & Q).
  destruct a as [| |i err|i resolved|i pr|i|i].
  - destruct (passed p); [discriminate|].
    destruct (todo p) as [|addr rest] eqn:T; [discriminate|].
    injection E as <- <-.
    destruct (spawnSync_exact n p addr B X) as (F' & S' & L' & N').
    split; [|reflexivity]. simpl in F', S', L', N', K.
    unfold exact. simpl.
    repeat split; try lia.
    intros _ _ C. contradiction.
  - destruct (todo p) eqn:T; [|discriminate].
    destruct (passed p || done_locked p); [discriminate|].
    injection E as <- <-. split; [|reflexivity].
    unfold exact. simpl. simpl in K.
    repeat split; try lia; auto.
  - destruct (nth_error (branches p) i) as [[addr|server|hosts]|] eqn:N;
      try discriminate.
    injection E as <- <-. split; [|reflexivity].
    unfold exact. simpl. rewrite length_replace_nth.
    repeat split; try lia.
    intros _ _ C. destruct (replace_nth_nonempty _ _ _ _ N C).
  - destruct (nth_error (branches p) i) as [[addr|server|hosts]|] eqn:N;
      try discriminate.
    simpl in E. destruct (existsb (String.eqb resolved) (seen p));
      injection E as <- <-; (split; [|reflexivity]);
      unfold exact; simpl; rewrite length_replace_nth;
      repeat split; try lia;
      intros _ _ C; destruct (replace_nth_nonempty _ _ _ _ N C).
  - destruct (nth_error (branches p) i) as [[addr|server|hosts]|] eqn:N;
      try discriminate.
    destruct (syncServer w server pr) as [w1 r].
    injection E as <- <-. split; [|reflexivity].
    unfold exact. simpl. rewrite length_replace_nth.
    repeat split; try lia.
    intros _ _ C. destruct (replace_nth_nonempty _ _ _ _ N C).
  - destruct (nth_error (branches p) i) as [[addr|server|[|addr rest]]|] eqn:N;
      try discriminate.
    injection E as <- <-. split; [|reflexivity].
    assert (X' : exact n (set_branches p (replace_nth i (BHosts rest)
                                                       (branches p)))).
    { unfold exact. simpl. rewrite length_replace_nth.
      repeat split; try lia.
      intros _ _ C. destruct (replace_nth_nonempty _ _ _ _ N C). }
    destruct (spawnSync_exact n _ addr B X') as (F' & S' & L' & N').
    simpl in F', S', L', N'. unfold exact. simpl.
    repeat split; try lia.
    intros _ _ C. contradiction.
  - destruct (nth_error (branches p) i) as [[addr|server|[|addr rest]]|] eqn:N;
      try discriminate.
    injection E as <- <-. split; [|reflexivity].
    pose proof (length_remove_nth _ _ _ N) as R.
    assert (W : GoInt.int_wrap (finished p + 1) = (finished p + 1)%Z).
    { apply int_wrap_small. unfold GoInt.in_int.
      change (2 ^ 31)%Z with 2147483648%Z. lia. }
    unfold exact. simpl. rewrite W.
    repeat split; try lia.
    intros Kn T C. left. unfold quiesced. simpl.
    rewrite C in R. simpl in R. rewrite T in K. simpl in K.
    assert (E1 : (started p =? finished p + 1)%Z = true)
      by (apply Z.eqb_eq; lia).
    assert (E2 : (finished p + 1
                  >=? Z.of_nat (List.length (known p)))%Z = true)
      by (apply Z.geb_le; lia).
    rewrite E1, E2. reflexivity.
Qed.

Lemma pass_init_exact addrs : exact 0 (pass_init addrs).
Proof.
  unfold exact. simpl. repeat split; try lia.
  intros N T. contradiction.
Qed.

Lemma pass_run_exact l : forall x y n,
  pass_run l x = Some y ->
  (n + Z.of_nat (List.length l) < 2147483648)%Z -> exact n (snd x) ->
  exact (n + Z.of_nat (List.length l)) (snd y)
  /\ known (snd y) = known (snd x).
Proof.
  induction l as [|a l IH]; intros [w p] y n; cbn [pass_run List.length].
  - intros E _ X. injection E as <-. rewrite Z.add_0_r. auto.
  - destruct (pass_act a (w, p)) as [[w1 p1]|] eqn:A; [|discriminate].
    intros E B X. rewrite Nat2Z.inj_succ in *.
    destruct (pass_act_exact _ _ _ _ _ n A ltac:(lia) X) as [X1 K1].
    destruct (IH _ _ (n + 1)%Z E ltac:(lia) X1) as [X2 K2].
    cbn [snd] in *. split; [|congruence].
    replace (n + Z.succ (Z.of_nat (List.length l)))%Z
      with (n + 1 + Z.of_nat (List.length l))%Z by lia.
    exact X2.
Qed.

(** X18: in a pass of fewer than 2^31 moves over at least one known
    address, once the range loop has ended and no branch is in flight the
    completion signal has been given, so the coordinator is not left
    waiting; and as long as the pass has neither crashed nor let the
    coordinator through, some move of it is possible. *)
Theorem pass_never_stuck l addrs w0 w p :
  pass_run l (w0, pass_init addrs) = Some (w, p) ->
  (Z.of_nat (List.length l) < 2147483648)%Z ->
  addrs <> [] ->
  (todo p = [] -> branches p = [] ->
   done_locked p = false \/ passed p = true)
  /\ (crashed p = false -> passed p = false ->
      exists a y, pass_act a (w, p) = Some y).
Proof.
  intros E B N.
  destruct (pass_run_exact l _ _ 0%Z E ltac:(lia) (pass_init_exact addrs))
    as [(_ & _ & _ & _ & Q) K].
  cbn [snd] in *. simpl in K. rewrite K in Q. specialize (Q N).
  split; [exact Q|]. intros C P.
  destruct (todo p) as [|addr rest] eqn:T.
  - destruct (branches p) as [|b bs] eqn:Bs.
    + destruct (Q eq_refl eq_refl) as [D|D]; [|congruence].
      exists MainWait. unfold pass_act. rewrite C, T, P, D. simpl. eauto.
    + destruct b as [a|server|[|a hosts]].
      * exists (NewServerFails 0 EmptyString). unfold pass_act.
        rewrite C, Bs. simpl. eauto.
      * exists (Sync 0 (SocketFailed EmptyString)). unfold pass_act.
        rewrite C, Bs. cbn [nth_error].
        destruct (syncServer w server (SocketFailed EmptyString)). eauto.
      * exists (Return 0). unfold pass_act. rewrite C, Bs. simpl. eauto.
      * exists (SpawnHost 0). unfold pass_act. rewrite C, Bs. simpl. eauto.
  - exists MainSpawn. unfold pass_act. rewrite C, P, T. eauto.
Qed.

Lemma pass_never_stuck_witness :
  exists w p,
    pass_run [MainSpawn; NewServerFails 0 "no such host"; Return 0]
             (newCluster ["A"%string], pass_init ["A"%string]) = Some (w, p)
    /\ (Z.of_nat 3 < 2147483648)%Z
    /\ ["A"%string] <> []
    /\ todo p = [] /\ branches p = []
    /\ (done_locked p = false \/ passed p = true)
    /\ exists a y, pass_act a (w, p) = Some y.
Proof.
  assert (B : (Z.of_nat 3 < 2147483648)%Z) by reflexivity.
  assert (N : ["A"%string] <> []) by discriminate.
  eexists. eexists. split; [reflexivity|].
  split; [exact B|]. split; [exact N|].
  split; [reflexivity|]. split; [reflexivity|].
  split.
  - eapply (proj1 (pass_never_stuck
                     [MainSpawn; NewServerFails 0 "no such host"; Return 0]
                     ["A"%string] (newCluster ["A"%string]) _ _
                     eq_refl B N)); reflexivity.
  - eapply (proj2 (pass_never_stuck
                     [MainSpawn; NewServerFails 0 "no such host"; Return 0]
                     ["A"%string] (newCluster ["A"%string]) _ _
                     eq_refl B N)); reflexivity.
Defined.

(** ** The start of a pass *)

(** X19: a cluster made from pairwise different seeds knows exactly those
    seeds, in the order given, and its first pass gets through the guard
    holding a second reference. *)
Theorem newCluster_known seeds :
  NoDup seeds ->
  getKnownAddrs (newCluster seeds) = seeds
  /\ exists w1,
       syncServers_guard (newCluster seeds) = Some w1
       /\ references (cluster w1) = 2%Z /\ syncing (cluster w1) = true.
Proof.
  intros N. split.
  - unfold getKnownAddrs. simpl.
    exact (fold_add_fresh seeds ([], []) tracks_nil N (fun _ _ F => F)).
  - eexists. split; [reflexivity|]. split; reflexivity.
Qed.

Lemma newCluster_known_witness :
  NoDup ["A"%string; "B"%string]
  /\ getKnownAddrs (newCluster ["A"%string; "B"%string])
     = ["A"%string; "B"%string].
Proof.
  assert (N : NoDup ["A"%string; "B"%string]).
  { constructor; [intros [E|[]]; discriminate E|].
    constructor; [intros []|constructor]. }
  split; [exact N|]. exact (proj1 (newCluster_known _ N)).
Defined.

Lemma range_loop l : forall w p,
  todo p = l -> crashed p = false -> passed p = false ->
  (0 <= started p)%Z ->
  (started p + Z.of_nat (List.length l) < 2147483648)%Z ->
  pass_run (repeat MainSpawn (List.length l)) (w, p)
  = Some (w, {| known := known p; todo := [];
                started := started p + Z.of_nat (List.length l);
                finished := finished p; done_locked := done_locked p;
                crashed := false; passed := false; seen := seen p;
                branches := branches p ++ map BNew l |}).
Proof.
  induction l as [|addr l IH]; intros w p T C P Hs B.
  - simpl. rewrite Z.add_0_r, app_nil_r. destruct p. simpl in *.
    subst. reflexivity.
  - assert (W : GoInt.int_wrap (started p + 1) = (started p + 1)%Z).
    { apply int_wrap_small. unfold GoInt.in_int.
      change (2 ^ 31)%Z with 2147483648%Z. simpl List.length in B. lia. }
    cbn [List.length repeat pass_run]. unfold pass_act.
    rewrite C, P, T.
    rewrite IH.
    + cbn [known todo started finished done_locked crashed passed seen
           branches spawnSync].
      rewrite W, <- app_assoc. simpl app.
      replace (started p + 1 + Z.of_nat (List.length l))%Z
        with (started p + Z.of_nat (S (List.length l)))%Z by lia.
      reflexivity.
    + reflexivity.
    + exact C.
    + exact P.
    + simpl. rewrite W. lia.
    + simpl. rewrite W. simpl List.length in B. lia.
Qed.

(** X20: when the range loop of line 297 has run, and before any branch
    has moved, one branch has been started for every known address, in
    the order of the known addresses, the counter of started branches is
    their number, and the completion signal has not been given. *)
Theorem range_loop_spawns_all addrs w :
  (Z.of_nat (List.length addrs) < 2147483648)%Z ->
  exists p,
    pass_run (repeat MainSpawn (List.length addrs)) (w, pass_init addrs)
    = Some (w, p)
    /\ branches p = map BNew addrs
    /\ started p = Z.of_nat (List.length addrs)
    /\ finished p = 0%Z /\ todo p = [] /\ done_locked p = true.
Proof.
  intros B. eexists. split.
  - apply range_loop; try reflexivity; simpl; lia.
  - simpl. repeat split.
Qed.

Lemma range_loop_spawns_all_witness :
  (Z.of_nat (List.length ["A"%string; "B"%string]) < 2147483648)%Z
  /\ exists p,
       pass_run [MainSpawn; MainSpawn]
                (newCluster [], pass_init ["A"%string; "B"%string])
       = Some (newCluster [], p)
       /\ branches p = [BNew "A"; BNew "B"].
Proof.
  assert (B : (Z.of_nat (List.length ["A"%string; "B"%string])
               < 2147483648)%Z) by reflexivity.
  split; [exact B|].
  destruct (range_loop_spawns_all ["A"%string; "B"%string] (newCluster []) B)
    as (p & R & Bs & _).
  exists p. split; [exact R|exact Bs].
Defined.
